(** * The elastic iterator of graph/elastic/iterator.go

    A shallow embedding of the iterator that lets the graph engine walk the
    documents of an Elasticsearch index: query translation ([NewIterator]),
    scroll pagination ([Next]), the membership test ([Contains]), the cached
    count ([Size]), [Reset] and [Clone].

    Everything the iterator reaches outside its own struct (the search
    client behind [qs.client], the store's [getSize], the host framework's
    uid counter, the order in which the Go runtime ranges over a map) is an
    operation of an environment [Env W] acting on a world state [W]; a Go
    panic is the [Panic] result. *)

From Stdlib Require Import ZArith List String Bool Lia.
From Stdlib Require Import Ascii Permutation.
Import ListNotations.
Local Open Scope string_scope.
Local Open Scope Z_scope.
Local Open Scope list_scope.
Set Warnings "-register-all".

(** ** Values of the host engine and of the search client *)

(** [quad.Direction], with the metadata marker this backend adds. *)
Inductive Direction : Type :=
  | Any | Subject | Predicate | Object | Label | QuadMetadata.

Definition Direction_eqb (a b : Direction) : bool :=
  match a, b with
  | Any, Any | Subject, Subject | Predicate, Predicate
  | Object, Object | Label, Label | QuadMetadata, QuadMetadata => true
  | _, _ => false
  end.

(** [graph.Value] is an interface; the dynamic types met in this package are
    [NodeHash] and [QuadHash] (both string types: the code converts a hit id
    with [QuadHash(resultID)] and [NodeHash(resultID)]) and
    [QuadRefGraphValue], a map from field key to encoded value.  [VOther]
    stands for any other dynamic type, the nil interface included. *)
Inductive Value : Type :=
  | VNodeHash (h : string)
  | VQuadHash (q : string)
  | VQuadRef (m : list (string * string))
  | VOther.

(** Go's [error]; [option error] is a possibly nil error. *)
Definition error : Type := string.

(** [elastic.Query], as far as this file builds queries. *)
Inductive Query : Type :=
  | TermQuery (name value : string)
  | RangeQuery (name from to : string)
  | RegexpQuery (name regexp : string)
  | TypeQuery (typ : string)
  | BoolFilter (filters : list Query).

(** [elastic.SearchHit], [elastic.SearchHits] and [elastic.SearchResult]:
    the fields the iterator reads.  The client allocates the result, its
    [Hits] and every hit whenever it returns a nil error, so the pointers
    between them are not modelled. *)
Record SearchHit : Type := { Id : string }.

Record SearchHits : Type := {
  TotalHits : Z;
  HitsHits : list SearchHit
}.

Record SearchResult : Type := {
  Hits : SearchHits;
  ScrollId : string
}.

(** The result pair (search result pointer, error) of a scroll request. *)
Inductive ScrollResponse : Type :=
  | ScrollErr (e : error)
  | ScrollOk (r : SearchResult).

(** A decoded JSON document as Go's [interface{}]: the nil interface, a
    string, a [map[string]interface{}], or anything else. *)
Inductive JSON : Type :=
  | JNil
  | JStr (s : string)
  | JObj (m : list (string * JSON))
  | JOther.

(** [graph.Tagger]: the tag names and the fixed tags of an iterator. *)
Record Tagger : Type := {
  tagger_tags : list string;
  fixedTags : list (string * Value)
}.

Definition emptyTagger : Tagger := {| tagger_tags := []; fixedTags := [] |}.

(** Modelled from the spec: [Tagger.CopyFrom] belongs to the host framework,
    which is not part of the source; it "copies tag bindings from the
    original": the source's tag names are appended and its fixed tags are
    written into the destination's map. *)
Definition CopyFrom (dst src : Tagger) : Tagger :=
  {| tagger_tags := tagger_tags dst ++ tagger_tags src;
     fixedTags := fixedTags src ++ fixedTags dst |}.

(** [*QuadStore]: the iterator only passes the pointer on. *)
Inductive QuadStore : Type := QuadStoreRef (handle : nat).

(** ** Results and effects *)

(** The outcome of a call that may panic. *)
Inductive Res (A : Type) : Type :=
  | Ok (a : A)
  | Panic (msg : string).
Arguments Ok {A} a.
Arguments Panic {A} msg.

Definition bindRes {A B : Type} (r : Res A) (k : A -> Res B) : Res B :=
  match r with
  | Ok a => k a
  | Panic msg => Panic msg
  end.

Notation "x <-- r ;; k" := (bindRes r (fun x => k))
  (at level 61, r at next level, right associativity).

(** [defer func() { recover() }()] around a body whose result is unnamed: a
    panic makes the function return the zero value of its result type. *)
Definition recover {A : Type} (zero : A) (r : Res A) : A :=
  match r with
  | Ok a => a
  | Panic _ => zero
  end.

(** Package-level declarations of the repository that live outside the
    source file: the index name, [quad.Direction.String] and [QuadHash.Get],
    the component of a quad identifier on a direction, taken to return for
    every identifier and direction. *)
Record Pkg : Type := {
  indexName : string;
  Direction_String : Direction -> string;
  QuadHash_Get : string -> Direction -> string
}.

(** The environment over a world state [W].  Every operation returns the
    world it leaves behind. *)
Record Env (W : Type) : Type := {
  (** [iterator.NextUID()] *)
  NextUID : W -> Z * W;
  (** [qs.client.GetFieldMapping().Index(index).Type(typ).Pretty(true).Do(ctx)] *)
  GetFieldMapping :
    QuadStore -> string -> string -> W -> (list (string * JSON) * option error) * W;
  (** the order in which [for key, value := range m] visits the entries of
      the map [m]; Go leaves it unspecified *)
  MapRange : list (string * string) -> W -> list (string * string) * W;
  (** [qs.client.Scroll(index).Type(typ).Do(ctx)] when the query is [None],
      [qs.client.Scroll(index).Type(typ).Query(q).Do(ctx)] otherwise *)
  ScrollStart : QuadStore -> string -> string -> option Query -> W -> ScrollResponse * W;
  (** [qs.client.Scroll(index).ScrollId(id).Do(ctx)] *)
  ScrollNext : QuadStore -> string -> string -> W -> ScrollResponse * W;
  (** [qs.getSize(resultType, query)] *)
  getSize : QuadStore -> string -> Query -> W -> (Z * option error) * W
}.
Arguments NextUID {W} _ _.
Arguments GetFieldMapping {W} _ _ _ _ _.
Arguments MapRange {W} _ _ _.
Arguments ScrollStart {W} _ _ _ _ _ _.
Arguments ScrollNext {W} _ _ _ _ _.
Arguments getSize {W} _ _ _ _ _.

(** ** The iterator *)

Record Iterator : Type := {
  uid : Z;
  tags : Tagger;
  qs : QuadStore;
  dir : Direction;
  resultSet : option SearchResult;
  resultIndex : Z;
  scrollId : string;
  hash : Value;
  size : Z;
  isAll : bool;
  resultType : string;
  types : string;
  query : Query;
  result : Value;
  err : option error
}.

Definition set_tags (it : Iterator) (t : Tagger) : Iterator :=
  {| uid := uid it; tags := t; qs := qs it; dir := dir it;
     resultSet := resultSet it; resultIndex := resultIndex it;
     scrollId := scrollId it; hash := hash it; size := size it;
     isAll := isAll it; resultType := resultType it; types := types it;
     query := query it; result := result it; err := err it |}.

Definition set_resultSet (it : Iterator) (rs : option SearchResult) : Iterator :=
  {| uid := uid it; tags := tags it; qs := qs it; dir := dir it;
     resultSet := rs; resultIndex := resultIndex it;
     scrollId := scrollId it; hash := hash it; size := size it;
     isAll := isAll it; resultType := resultType it; types := types it;
     query := query it; result := result it; err := err it |}.

Definition set_resultIndex (it : Iterator) (i : Z) : Iterator :=
  {| uid := uid it; tags := tags it; qs := qs it; dir := dir it;
     resultSet := resultSet it; resultIndex := i;
     scrollId := scrollId it; hash := hash it; size := size it;
     isAll := isAll it; resultType := resultType it; types := types it;
     query := query it; result := result it; err := err it |}.

Definition set_size (it : Iterator) (n : Z) : Iterator :=
  {| uid := uid it; tags := tags it; qs := qs it; dir := dir it;
     resultSet := resultSet it; resultIndex := resultIndex it;
     scrollId := scrollId it; hash := hash it; size := n;
     isAll := isAll it; resultType := resultType it; types := types it;
     query := query it; result := result it; err := err it |}.

Definition set_result (it : Iterator) (v : Value) : Iterator :=
  {| uid := uid it; tags := tags it; qs := qs it; dir := dir it;
     resultSet := resultSet it; resultIndex := resultIndex it;
     scrollId := scrollId it; hash := hash it; size := size it;
     isAll := isAll it; resultType := resultType it; types := types it;
     query := query it; result := v; err := err it |}.

Definition set_err (it : Iterator) (e : option error) : Iterator :=
  {| uid := uid it; tags := tags it; qs := qs it; dir := dir it;
     resultSet := resultSet it; resultIndex := resultIndex it;
     scrollId := scrollId it; hash := hash it; size := size it;
     isAll := isAll it; resultType := resultType it; types := types it;
     query := query it; result := result it; err := e |}.

(** ** Helpers of the Go runtime and library *)

(** [m[k]] on a [map[string]interface{}]: the nil interface when absent. *)
Fixpoint mapIndex (m : list (string * JSON)) (k : string) : JSON :=
  match m with
  | [] => JNil
  | (k', v) :: m' => if String.eqb k' k then v else mapIndex m' k
  end.

(** [x.(map[string]interface{})]: panics on any other dynamic type. *)
Definition asMap (x : JSON) : Res (list (string * JSON)) :=
  match x with
  | JObj m => Ok m
  | _ => Panic "interface conversion: not map[string]interface {}"
  end.

(** [s[i]] on a slice with an [int64] index: a run-time panic out of range. *)
Definition sliceIndex {A : Type} (s : list A) (i : Z) : Res A :=
  if i <? 0 then Panic "index out of range"
  else match nth_error s (Z.to_nat i) with
       | Some a => Ok a
       | None => Panic "index out of range"
       end.

(** [strings.Split(s, sep)] for a separator of at least one byte: [skip]
    counts the bytes of a matched separator still to be dropped, [cur] is
    the part read so far. *)
Fixpoint SplitFrom (sep s : string) (skip : nat) (cur : string) : list string :=
  match s with
  | EmptyString => [cur]
  | String c s' =>
      match skip with
      | S k => SplitFrom sep s' k cur
      | O =>
          if String.prefix sep s
          then cur :: SplitFrom sep s' (String.length sep - 1) EmptyString
          else SplitFrom sep s' O (cur ++ String c EmptyString)%string
      end
  end.

Definition Split (s sep : string) : list string := SplitFrom sep s O EmptyString.

(** [len(x)] as an [int64]. *)
Definition len {A : Type} (l : list A) : Z := Z.of_nat (List.length l).

(** The query no document matches: [elastic.NewTermQuery("nullterm", "nullterm")]. *)
Definition nullterm : Query := TermQuery "nullterm" "nullterm".

(** ** The source functions *)

Section Model.

Variable P : Pkg.
Variable W : Type.
Variable E : Env W.

(** [getFieldMap]: the "quads" mapping of the index, or the nil map when the
    request fails or the answer does not have the expected shape (the
    deferred [recover] swallows the failed type assertion). *)
Definition getFieldMap (qs0 : QuadStore) (w : W) : list (string * JSON) * W :=
  let '((fields, e), w') := GetFieldMapping E qs0 (indexName P) "quads" w in
  match e with
  | Some _ => ([], w')
  | None =>
      (recover []
         (a <-- asMap (mapIndex fields (indexName P)) ;;
          b <-- asMap (mapIndex a "mappings") ;;
          asMap (mapIndex b "quads")),
       w')
  end.

(** [isTime]: whether the mapping types the field [quadDir.keyVal] as a date;
    false on any shape mismatch. *)
Definition isTime (fieldMap : list (string * JSON)) (keyVal : string)
    (quadDir : Direction) : bool :=
  recover false
    (a <-- asMap (mapIndex fieldMap (Direction_String P quadDir ++ "." ++ keyVal)%string) ;;
     b <-- asMap (mapIndex a "mapping") ;;
     c <-- asMap (mapIndex b keyVal) ;;
     Ok (match mapIndex c "type" with
         | JStr s => String.eqb s "date"
         | _ => false
         end)).

(** The body of the [for key, value := range val] loop of [NewIterator], over
    the entries in the order the loop visits them; [filterqueries] is the
    slice built so far.  The first branch ends in the loop's [break]. *)
Fixpoint metadataFilters (fieldMap : list (string * JSON)) (d : Direction)
    (entries : list (string * string)) (filterqueries : list Query) : list Query :=
  match entries with
  | [] => filterqueries
  | (key, value) :: rest =>
      if isTime fieldMap key d then
        let timeRange := Split value "=>" in
        if len timeRange <? 2 then filterqueries ++ [nullterm]
        else
          metadataFilters fieldMap d rest
            (filterqueries ++
               [RangeQuery (Direction_String P d ++ "." ++ key)%string
                  (nth 0 timeRange EmptyString) (nth 1 timeRange EmptyString)])
      else
        metadataFilters fieldMap d rest
          (filterqueries ++
             [RegexpQuery (Direction_String P d ++ "." ++ key)%string value])
  end.

(** The struct literal both branches of [NewIterator] and [NewAllIterator]
    return; the fields they leave out hold their zero values. *)
Definition mkIterator (u : Z) (qs0 : QuadStore) (d : Direction)
    (resultType0 : string) (q : Query) (h : Value) (all : bool) : Iterator :=
  {| uid := u; tags := emptyTagger; qs := qs0; dir := d;
     resultSet := None; resultIndex := 0; scrollId := EmptyString;
     hash := h; size := -1; isAll := all; resultType := resultType0;
     types := EmptyString; query := q; result := VOther; err := None |}.

Definition NewIterator (qs0 : QuadStore) (resultType0 : string) (d : Direction)
    (val : Value) (w : W) : Res Iterator * W :=
  if Direction_eqb d QuadMetadata then
    let '(elasticFieldMapping, w1) := getFieldMap qs0 w in
    let '(rq, w2) :=
      if negb (len elasticFieldMapping =? 0) then
        match val with
        | VQuadRef m =>
            let '(entries, w') := MapRange E m w1 in
            (Ok (BoolFilter (metadataFilters elasticFieldMapping d entries [])), w')
        | _ => (Panic "interface conversion: not QuadRefGraphValue", w1)
        end
      else (Ok nullterm, w1) in
    match rq with
    | Panic msg => (Panic msg, w2)
    | Ok q =>
        let '(u, w3) := NextUID E w2 in
        (Ok (mkIterator u qs0 d resultType0 q val false), w3)
    end
  else
    match val with
    | VNodeHash h =>
        let '(u, w1) := NextUID E w in
        (Ok (mkIterator u qs0 d resultType0
               (TermQuery (Direction_String P d) h) (VNodeHash h) false), w1)
    | _ => (Panic "interface conversion: not NodeHash", w)
    end.

Definition makeElasticResultSet (it : Iterator) (w : W) : ScrollResponse * W :=
  if isAll it then ScrollStart E (qs it) (indexName P) (resultType it) None w
  else ScrollStart E (qs it) (indexName P) (resultType it) (Some (query it)) w.

Definition NewAllIterator (qs0 : QuadStore) (resultType0 : string) (w : W)
    : Iterator * W :=
  let '(u, w1) := NextUID E w in
  (mkIterator u qs0 Any resultType0 (TypeQuery resultType0)
     (VNodeHash EmptyString) true, w1).

Definition Result (it : Iterator) : Value := result it.

(** The tail of [Next]: the hit id becomes a quad or a node identifier. *)
Definition storeResult (it : Iterator) (resultID : string) : Iterator :=
  if String.eqb (resultType it) "quads"
  then set_result it (VQuadHash resultID)
  else set_result it (VNodeHash resultID).

(** [Next] from the point where [it.resultSet] is known to hold [rs].
    [it.resultIndex++] cannot overflow: it runs only below a slice length. *)
Definition NextPage (it : Iterator) (rs : SearchResult) (w : W)
    : Res (bool * Iterator) * W :=
  if resultIndex it <? len (HitsHits (Hits rs)) then
    match sliceIndex (HitsHits (Hits rs)) (resultIndex it) with
    | Panic msg => (Panic msg, w)
    | Ok h =>
        (Ok (true, storeResult (set_resultIndex it (resultIndex it + 1)) (Id h)), w)
    end
  else
    let '(resp, w') := ScrollNext E (qs it) (indexName P) (ScrollId rs) w in
    match resp with
    | ScrollErr _ => (Ok (false, it), w')
    | ScrollOk newResults =>
        if TotalHits (Hits newResults) =? 0 then (Ok (false, it), w')
        else
          match sliceIndex (HitsHits (Hits newResults)) 0 with
          | Panic msg => (Panic msg, w')
          | Ok h =>
              (Ok (true,
                   storeResult
                     (set_resultIndex (set_resultSet it (Some newResults)) 1)
                     (Id h)), w')
          end
    end.

Definition Next (it : Iterator) (w : W) : Res (bool * Iterator) * W :=
  match resultSet it with
  | None =>
      let '(resp, w') := makeElasticResultSet it w in
      match resp with
      | ScrollErr _ => (Ok (false, it), w')
      | ScrollOk results => NextPage (set_resultSet it (Some results)) results w'
      end
  | Some rs => NextPage it rs w
  end.

Definition NextPath (it : Iterator) : bool := false.

(** [val == it.hash]: a [NodeHash] against the interface value [it.hash]. *)
Definition NodeHash_eq (val : string) (h : Value) : bool :=
  match h with
  | VNodeHash s => String.eqb val s
  | _ => false
  end.

(** [Contains]; the host's [ContainsLogIn] and [ContainsLogOut] only log, the
    latter returning the flag it is given. *)
Definition Contains (it : Iterator) (v : Value) : Res (bool * Iterator) :=
  if isAll it then Ok (true, set_result it v)
  else
    match v with
    | VQuadHash q =>
        let val := QuadHash_Get P q (dir it) in
        if NodeHash_eq val (hash it) || Direction_eqb (dir it) QuadMetadata
        then Ok (true, set_result it v)
        else Ok (false, it)
    | _ => Panic "interface conversion: not QuadHash"
    end.

Definition Err (it : Iterator) : option error := err it.

Definition Reset (it : Iterator) : Iterator :=
  set_resultIndex (set_resultSet it None) 0.

Definition Clone (it : Iterator) (w : W) : Res Iterator * W :=
  let '(rm, w') :=
    if isAll it then
      let '(m, w1) := NewAllIterator (qs it) (resultType it) w in (Ok m, w1)
    else NewIterator (qs it) (resultType it) (dir it) (hash it) w in
  match rm with
  | Panic msg => (Panic msg, w')
  | Ok m => (Ok (set_tags m (CopyFrom (tags m) (tags it))), w')
  end.

Definition Size (it : Iterator) (w : W) : (Z * bool) * Iterator * W :=
  if size it =? -1 then
    let '((n, e), w') := getSize E (qs it) (resultType it) (query it) w in
    let it1 := set_size it n in
    match e with
    | Some _ => ((n, true), set_err it1 e, w')
    | None => ((n, true), it1, w')
    end
  else ((size it, true), it, w).

(** ** Harness: repeated calls and a store of iterators *)

(** The outcomes of [n] successive calls of [Next]: [Some v] for a call that
    returned true and left [v] in [Result], [None] for one that returned
    false; the trace stops at a panic. *)
Fixpoint advances (n : nat) (it : Iterator) (w : W) : list (Res (option Value)) :=
  match n with
  | O => []
  | S n' =>
      match Next it w with
      | (Ok (true, it'), w') => Ok (Some (Result it')) :: advances n' it' w'
      | (Ok (false, it'), w') => Ok None :: advances n' it' w'
      | (Panic msg, _) => [Panic msg]
      end
  end.

(** The value [Next] stores for a hit. *)
Definition hitValue (resultType0 : string) (h : SearchHit) : Value :=
  if String.eqb resultType0 "quads" then VQuadHash (Id h) else VNodeHash (Id h).

(** The outcome of a call of [Next] that returned true on the hit [h]. *)
Definition yielded (resultType0 : string) (h : SearchHit) : Res (option Value) :=
  Ok (Some (hitValue resultType0 h)).

(** Iterators live behind pointers: a store maps an address to the struct it
    points to. *)
Definition Store : Type := list Iterator.

Fixpoint storeSet (st : Store) (a : nat) (it : Iterator) : Store :=
  match st, a with
  | [], _ => []
  | _ :: st', O => it :: st'
  | x :: st', S a' => x :: storeSet st' a' it
  end.

Definition NextAt (st : Store) (a : nat) (w : W) : Res (bool * Store) * W :=
  match nth_error st a with
  | None => (Panic "nil pointer dereference", w)
  | Some it =>
      match Next it w with
      | (Ok (b, it'), w') => (Ok (b, storeSet st a it'), w')
      | (Panic msg, w') => (Panic msg, w')
      end
  end.

(** [Clone] allocates the new iterator at a fresh address. *)
Definition CloneAt (st : Store) (a : nat) (w : W) : Res (nat * Store) * W :=
  match nth_error st a with
  | None => (Panic "nil pointer dereference", w)
  | Some it =>
      match Clone it w with
      | (Ok m, w') => (Ok (List.length st, st ++ [m]), w')
      | (Panic msg, w') => (Panic msg, w')
      end
  end.

(** ** Backends that page

    A backend serves the pages [p1, ..., pm] of a query with [total] hits
    when the scroll-start request answers with [p1] and each scroll-continue
    request on the scroll id of the page before answers with the next page,
    every page reporting [total]; after the last page the scroll-continue
    request signals the end, by an error or by reporting zero hits. *)
Fixpoint ServesRest (qs0 : QuadStore) (total : Z) (sid : string)
    (pages : list (list SearchHit)) (w : W) : Prop :=
  match pages with
  | [] =>
      match fst (ScrollNext E qs0 (indexName P) sid w) with
      | ScrollErr _ => True
      | ScrollOk r => TotalHits (Hits r) = 0
      end
  | p :: ps =>
      exists r w',
        ScrollNext E qs0 (indexName P) sid w = (ScrollOk r, w') /\
        HitsHits (Hits r) = p /\ TotalHits (Hits r) = total /\
        ServesRest qs0 total (ScrollId r) ps w'
  end.

Definition Serves (it : Iterator) (total : Z) (pages : list (list SearchHit))
    (w : W) : Prop :=
  match pages with
  | [] => False
  | p :: ps =>
      exists r w',
        makeElasticResultSet it w = (ScrollOk r, w') /\
        HitsHits (Hits r) = p /\ TotalHits (Hits r) = total /\
        ServesRest (qs it) total (ScrollId r) ps w'
  end.

End Model.

Arguments getFieldMap P {W} E qs0 w.
Arguments NewIterator P {W} E qs0 resultType0 d val w.
Arguments makeElasticResultSet P {W} E it w.
Arguments NewAllIterator {W} E qs0 resultType0 w.
Arguments NextPage P {W} E it rs w.
Arguments Next P {W} E it w.
Arguments Clone P {W} E it w.
Arguments Size {W} E it w.
Arguments advances P {W} E n it w.
Arguments NextAt P {W} E st a w.
Arguments CloneAt P {W} E st a w.
Arguments ServesRest P {W} E qs0 total sid pages w.
Arguments Serves P {W} E it total pages w.

(** The hits of a result set cut into pages of [k] hits, the last one
    possibly shorter; [fuel] bounds the number of pages. *)
Fixpoint pagesFuel {A : Type} (fuel k : nat) (l : list A) : list (list A) :=
  match fuel with
  | O => []
  | S fuel' =>
      match l with
      | [] => []
      | _ :: _ => firstn k l :: pagesFuel fuel' k (skipn k l)
      end
  end.

Definition pagesOf {A : Type} (k : nat) (l : list A) : list (list A) :=
  pagesFuel (List.length l) k l.

(** ** What a predicate selects *)

(** An indexed document: its type and the terms indexed under each field. *)
Record Document : Type := {
  doc_type : string;
  doc_terms : string -> list string
}.

(** How the backend decides range and pattern predicates. *)
Record Matching : Type := {
  rangeMatch : string -> string -> string -> Document -> bool;
  regexpMatch : string -> string -> Document -> bool
}.

(** Modelled from the spec: which documents a predicate selects is decided by
    the search backend, outside the source.  A term predicate selects the
    documents whose field equals the value, a type predicate those of the
    type, and the per-key predicates of a filter set "are combined with
    logical AND". *)
Fixpoint matches (S : Matching) (d : Document) (q : Query) : bool :=
  match q with
  | TermQuery name value => existsb (String.eqb value) (doc_terms d name)
  | RangeQuery name from to => rangeMatch S name from to d
  | RegexpQuery name regexp => regexpMatch S name regexp d
  | TypeQuery typ => String.eqb (doc_type d) typ
  | BoolFilter filters => forallb (matches S d) filters
  end.

(** No document of the index holds the term "nullterm" under the field
    "nullterm": this is what makes [nullterm] match nothing. *)
Definition noNullterm (d : Document) : Prop :=
  ~ In "nullterm" (doc_terms d "nullterm").

Definition matchesNothing (q : Query) : Prop :=
  forall S d, noNullterm d -> matches S d q = false.

(** A time-typed filter entry whose value has no range delimiter. *)
Definition malformedRange (P : Pkg) (fieldMap : list (string * JSON))
    (d : Direction) (kv : string * string) : bool :=
  isTime P fieldMap (fst kv) d && (len (Split (snd kv) "=>") <? 2).

(** ** Properties of iterator states *)

(** The iteration request an iterator was built from, as the constructors
    leave it in the struct: an "all" request, a metadata request with its
    filter map, or an exact-match request with its target. *)
Definition requestOk (P : Pkg) (it : Iterator) : Prop :=
  if isAll it then
    dir it = Any /\ hash it = VNodeHash EmptyString /\
    query it = TypeQuery (resultType it)
  else if Direction_eqb (dir it) QuadMetadata then
    exists m, hash it = VQuadRef m
  else
    exists h, hash it = VNodeHash h /\
              query it = TermQuery (Direction_String P (dir it)) h.

(** An iterator that holds no page yet. *)
Definition fresh (it : Iterator) : Prop :=
  resultSet it = None /\ resultIndex it = 0.

(** The fields [Next] reads. *)
Definition sameCursor (a b : Iterator) : Prop :=
  qs a = qs b /\ isAll a = isAll b /\ resultType a = resultType b /\
  query a = query b /\ resultSet a = resultSet b /\
  resultIndex a = resultIndex b.

(** The position of an iterator lies within its page. *)
Definition indexInRange (it : Iterator) : Prop :=
  match resultSet it with
  | None => resultIndex it = 0
  | Some rs => 0 <= resultIndex it <= len (HitsHits (Hits rs))
  end.

(** In world [w] the backend answers the request the next call of [Next]
    makes with an end signal: the scroll-start request with an error when the
    iterator holds no page, otherwise the scroll-continue request on the held
    scroll id with an error or a zero total. *)
Definition refusedAt {W : Type} (P : Pkg) (E : Env W) (it : Iterator) (w : W) : Prop :=
  match resultSet it with
  | None =>
      match fst (makeElasticResultSet P E it w) with
      | ScrollErr _ => True
      | ScrollOk _ => False
      end
  | Some rs =>
      match fst (ScrollNext E (qs it) (indexName P) (ScrollId rs) w) with
      | ScrollErr _ => True
      | ScrollOk r => TotalHits (Hits r) = 0
      end
  end.

(** ** A scripted backend

    The world is a script: the uid counter, the answer of the field-mapping
    request, and the answers the scroll and count requests give in turn.  A
    scroll request past the end of the script fails. *)
Record Script : Type := {
  script_uid : Z;
  script_fields : list (string * JSON) * option error;
  script_scrolls : list ScrollResponse;
  script_counts : list (Z * option error)
}.

Definition popScroll (w : Script) : ScrollResponse * Script :=
  match script_scrolls w with
  | [] => (ScrollErr "EOF", w)
  | r :: rest =>
      (r, {| script_uid := script_uid w; script_fields := script_fields w;
             script_scrolls := rest; script_counts := script_counts w |})
  end.

Definition popCount (w : Script) : (Z * option error) * Script :=
  match script_counts w with
  | [] => ((0, None), w)
  | c :: rest =>
      (c, {| script_uid := script_uid w; script_fields := script_fields w;
             script_scrolls := script_scrolls w; script_counts := rest |})
  end.

Definition scripted : Env Script :=
  {| NextUID := fun w =>
       (script_uid w,
        {| script_uid := script_uid w + 1; script_fields := script_fields w;
           script_scrolls := script_scrolls w; script_counts := script_counts w |});
     GetFieldMapping := fun _ _ _ w => (script_fields w, w);
     MapRange := fun m w => (m, w);
     ScrollStart := fun _ _ _ _ w => popScroll w;
     ScrollNext := fun _ _ _ w => popScroll w;
     getSize := fun _ _ _ w => popCount w |}.

Definition testPkg : Pkg :=
  {| indexName := "cayley";
     Direction_String := fun d =>
       match d with
       | Any => "any" | Subject => "subject" | Predicate => "predicate"
       | Object => "object" | Label => "label" | QuadMetadata => "metadata"
       end;
     QuadHash_Get := fun q d =>
       match d with
       | Subject => substring 0 1 q
       | Predicate => substring 1 1 q
       | Object => substring 2 1 q
       | Label => substring 3 1 q
       | _ => EmptyString
       end |}.

Definition theStore : QuadStore := QuadStoreRef 0.

Definition hit (id : string) : SearchHit := {| Id := id |}.

Definition page (total : Z) (ids : list string) (sid : string) : SearchResult :=
  {| Hits := {| TotalHits := total; HitsHits := map hit ids |}; ScrollId := sid |}.

Definition script (fields : list (string * JSON) * option error)
    (scrolls : list ScrollResponse) (counts : list (Z * option error)) : Script :=
  {| script_uid := 1; script_fields := fields;
     script_scrolls := scrolls; script_counts := counts |}.

(** A field mapping that types "metadata.created" as a date. *)
Definition dateMapping : list (string * JSON) :=
  [("cayley",
    JObj [("mappings",
      JObj [("quads",
        JObj [("metadata.created",
          JObj [("mapping",
            JObj [("created", JObj [("type", JStr "date")])])])])])])].

(** An exact-match iterator on the subject "a" over quads, as [NewIterator]
    builds it. *)
Definition subjectIterator : Iterator :=
  mkIterator 1 theStore Subject "quads" (TermQuery "subject" "a") (VNodeHash "a") false.

(** A metadata iterator built while the index had no mapping. *)
Definition metadataIterator : Iterator :=
  mkIterator 1 theStore QuadMetadata "quads" nullterm
    (VQuadRef [("created", "2016=>2017")]) false.

(** ** The remaining methods *)

(** [graph.IteratorStats], the fields [Stats] fills in. *)
Record IteratorStats : Type := {
  ContainsCost : Z;
  NextCost : Z;
  Stats_Size : Z;
  ExactSize : bool
}.

(** [Stats] asks [Size], so it computes and caches the count like [Size]. *)
Definition Stats {W : Type} (E : Env W) (it : Iterator) (w : W)
    : IteratorStats * Iterator * W :=
  let '((size0, exact), it', w') := Size E it w in
  ({| ContainsCost := 1; NextCost := 5; Stats_Size := size0; ExactSize := exact |},
   it', w').

(** A Go [map[string]graph.Value] as an association list in which the first
    entry of a key holds its value: [dst[k] = v] puts an entry in front. *)
Definition mapSet (dst : list (string * Value)) (k : string) (v : Value)
    : list (string * Value) :=
  (k, v) :: dst.

Fixpoint mapGet (dst : list (string * Value)) (k : string) : option Value :=
  match dst with
  | [] => None
  | (k', v) :: rest => if String.eqb k' k then Some v else mapGet rest k
  end.

(** [TagResults]: [it.tags.Tags()] and [it.tags.Fixed()] are the two fields
    of the tagger; [fixedOrder] lists the fixed tags in the order the second
    range loop visits them.  The destination is an allocated map. *)
Definition TagResults (it : Iterator) (fixedOrder : list (string * Value))
    (dst : list (string * Value)) : list (string * Value) :=
  fold_left (fun d kv => mapSet d (fst kv) (snd kv)) fixedOrder
    (fold_left (fun d tag => mapSet d tag (Result it)) (tagger_tags (tags it)) dst).

(** A backend that is down: every request fails. *)
Definition offline : Env unit :=
  {| NextUID := fun w => (0, w);
     GetFieldMapping := fun _ _ _ w => (([], Some "offline"), w);
     MapRange := fun m w => (m, w);
     ScrollStart := fun _ _ _ _ w => (ScrollErr "offline", w);
     ScrollNext := fun _ _ _ w => (ScrollErr "offline", w);
     getSize := fun _ _ _ w => ((-1, Some "offline"), w) |}.

(** ** Lifetimes

    One operation of the host on an iterator it holds: a call of [Next],
    [Contains], [Size], [Stats] or [Reset] that returns, or a write to the
    tags through the pointer [Tagger] hands out. *)
Inductive Step {W : Type} (P : Pkg) (E : Env W) : Iterator -> Iterator -> Prop :=
  | step_Next (it it' : Iterator) (b : bool) (w w' : W) :
      Next P E it w = (Ok (b, it'), w') -> Step P E it it'
  | step_Contains (it it' : Iterator) (v : Value) (b : bool) :
      Contains P it v = Ok (b, it') -> Step P E it it'
  | step_Size (it it' : Iterator) (r : Z * bool) (w w' : W) :
      Size E it w = (r, it', w') -> Step P E it it'
  | step_Stats (it it' : Iterator) (r : IteratorStats) (w w' : W) :
      Stats E it w = (r, it', w') -> Step P E it it'
  | step_Reset (it : Iterator) : Step P E it (Reset it)
  | step_Tagger (it : Iterator) (t : Tagger) : Step P E it (set_tags it t).

Inductive Steps {W : Type} (P : Pkg) (E : Env W) : Iterator -> Iterator -> Prop :=
  | steps_refl (it : Iterator) : Steps P E it it
  | steps_step (a b c : Iterator) :
      Steps P E a b -> Step P E b c -> Steps P E a c.

(** The iterators a program can hold: built by a constructor or by [Clone],
    then operated on. *)
Inductive Reachable {W : Type} (P : Pkg) (E : Env W) : Iterator -> Prop :=
  | reach_NewIterator (qs0 : QuadStore) (rt : string) (d : Direction)
      (val : Value) (w w' : W) (it : Iterator) :
      NewIterator P E qs0 rt d val w = (Ok it, w') -> Reachable P E it
  | reach_NewAllIterator (qs0 : QuadStore) (rt : string) (w : W) :
      Reachable P E (fst (NewAllIterator E qs0 rt w))
  | reach_Clone (it m : Iterator) (w w' : W) :
      Reachable P E it -> Clone P E it w = (Ok m, w') -> Reachable P E m
  | reach_Step (it it' : Iterator) :
      Reachable P E it -> Step P E it it' -> Reachable P E it'.

(** The fields no method assigns after construction. *)
Definition sameRequest (a b : Iterator) : Prop :=
  uid a = uid b /\ qs a = qs b /\ dir a = dir b /\ hash a = hash b /\
  isAll a = isAll b /\ resultType a = resultType b /\ query a = query b /\
  scrollId a = scrollId b /\ types a = types b.

(** What the constructors establish and the methods keep. *)
Definition wellBuilt (P : Pkg) (it : Iterator) : Prop :=
  indexInRange it /\ scrollId it = EmptyString /\ types it = EmptyString /\
  (if isAll it then
     dir it = Any /\ hash it = VNodeHash EmptyString /\
     query it = TypeQuery (resultType it)
   else if Direction_eqb (dir it) QuadMetadata then
     query it = nullterm \/ exists fs, query it = BoolFilter fs
   else
     exists h, hash it = VNodeHash h /\
               query it = TermQuery (Direction_String P (dir it)) h).

(** The filter one entry of the map contributes when it does not stop the
    loop. *)
Definition entryFilter (P : Pkg) (fieldMap : list (string * JSON)) (d : Direction)
    (kv : string * string) : Query :=
  if isTime P fieldMap (fst kv) d then
    RangeQuery (Direction_String P d ++ "." ++ fst kv)%string
      (nth 0 (Split (snd kv) "=>") EmptyString)
      (nth 1 (Split (snd kv) "=>") EmptyString)
  else RegexpQuery (Direction_String P d ++ "." ++ fst kv)%string (snd kv).

(** The string holds no equals sign, hence no range delimiter. *)
Fixpoint noEquals (s : string) : bool :=
  match s with
  | EmptyString => true
  | String c s' => negb (Ascii.eqb c "="%char) && noEquals s'
  end.


(** In world [w] the backend answers the request the next call of [Next]
    makes with a page to read: the scroll-start request with a page that
    carries a hit when the iterator holds no page, otherwise the
    scroll-continue request on the held scroll id with a page that reports a
    non-zero total and carries a hit. *)
Definition answeredAt {W : Type} (P : Pkg) (E : Env W) (it : Iterator) (w : W) : Prop :=
  match resultSet it with
  | None =>
      match fst (makeElasticResultSet P E it w) with
      | ScrollErr _ => False
      | ScrollOk r => HitsHits (Hits r) <> []
      end
  | Some rs =>
      match fst (ScrollNext E (qs it) (indexName P) (ScrollId rs) w) with
      | ScrollErr _ => False
      | ScrollOk r => TotalHits (Hits r) <> 0 /\ HitsHits (Hits r) <> []
      end
  end.

(** The contract of the search client's scroll service: its [Do] answers a
    page without hits with the error [io.EOF], so a result it returns with a
    nil error carries at least one hit. *)
Definition clientContract {W : Type} (E : Env W) : Prop :=
  (forall qs0 index typ q w r w',
     ScrollStart E qs0 index typ q w = (ScrollOk r, w') -> HitsHits (Hits r) <> []) /\
  (forall qs0 index sid w r w',
     ScrollNext E qs0 index sid w = (ScrollOk r, w') -> HitsHits (Hits r) <> []).

(** The scripted backend behind that client: the script holds the raw
    answers, and the client turns a page without hits into [io.EOF]. *)
Definition clientScroll (w : Script) : ScrollResponse * Script :=
  match popScroll w with
  | (ScrollErr e, w') => (ScrollErr e, w')
  | (ScrollOk r, w') =>
      match HitsHits (Hits r) with
      | [] => (ScrollErr "EOF", w')
      | _ :: _ => (ScrollOk r, w')
      end
  end.

Definition scriptedClient : Env Script :=
  {| NextUID := NextUID scripted;
     GetFieldMapping := GetFieldMapping scripted;
     MapRange := MapRange scripted;
     ScrollStart := fun _ _ _ _ w => clientScroll w;
     ScrollNext := fun _ _ _ w => clientScroll w;
     getSize := getSize scripted |}.

Definition isNullterm (q : Query) : bool :=
  match q with
  | TermQuery name value => String.eqb name "nullterm" && String.eqb value "nullterm"
  | _ => false
  end.

(** A scripted backend that looks at the predicate: the match-nothing term
    finds no document, so its scroll ends at once; any other scroll-start
    request is answered from the script. *)
Definition indexed : Env Script :=
  {| NextUID := NextUID scripted;
     GetFieldMapping := GetFieldMapping scripted;
     MapRange := MapRange scripted;
     ScrollStart := fun _ _ _ q w =>
       match q with
       | Some q0 => if isNullterm q0 then (ScrollErr "EOF", w) else popScroll w
       | None => popScroll w
       end;
     ScrollNext := fun _ _ _ w => popScroll w;
     getSize := getSize scripted |}.

(** * Properties *)

(** ** Cutting a list into pages *)

Lemma pagesFuel_concat {A : Type} (fuel k : nat) :
  (1 <= k)%nat ->
  forall l : list A, (List.length l <= fuel)%nat -> List.concat (pagesFuel fuel k l) = l.
Proof.
  intros Hk. induction fuel as [|fuel IH]; intros l Hl.
  - destruct l; [reflexivity | cbn in Hl; lia].
  - destruct l as [|a l]; [reflexivity|].
    cbn [pagesFuel List.concat]. rewrite IH.
    + apply firstn_skipn.
    + rewrite length_skipn. cbn [List.length] in *. lia.
Qed.

Lemma pagesFuel_nonempty {A : Type} (fuel k : nat) :
  (1 <= k)%nat ->
  forall l : list A, Forall (fun p => p <> []) (pagesFuel fuel k l).
Proof.
  intros Hk. induction fuel as [|fuel IH]; intros l; [constructor|].
  destruct l as [|a l]; [constructor|].
  cbn [pagesFuel]. constructor; [|apply IH].
  destruct k as [|k]; [lia|]. cbn. discriminate.
Qed.

Lemma pagesOf_concat {A : Type} (k : nat) (l : list A) :
  (1 <= k)%nat -> List.concat (pagesOf k l) = l.
Proof. intros Hk. apply pagesFuel_concat; [exact Hk | apply Nat.le_refl]. Qed.

(** ** Single calls of [Next] *)

Section NextFacts.

Variable P : Pkg.
Variable W : Type.
Variable E : Env W.

Lemma storeResult_fields (it : Iterator) (id : string) :
  qs (storeResult it id) = qs it /\ isAll (storeResult it id) = isAll it /\
  resultType (storeResult it id) = resultType it /\
  query (storeResult it id) = query it /\
  resultSet (storeResult it id) = resultSet it /\
  resultIndex (storeResult it id) = resultIndex it /\
  err (storeResult it id) = err it /\ size (storeResult it id) = size it.
Proof.
  unfold storeResult. destruct (String.eqb (resultType it) "quads");
    cbn; repeat split.
Qed.

Lemma storeResult_Result (it : Iterator) (h : SearchHit) :
  Result (storeResult it (Id h)) = hitValue (resultType it) h.
Proof.
  unfold storeResult, hitValue, Result.
  destruct (String.eqb (resultType it) "quads"); reflexivity.
Qed.

Lemma sameCursor_refl (it : Iterator) : sameCursor it it.
Proof. unfold sameCursor. repeat split. Qed.

Lemma storeResult_sameCursor (a b : Iterator) (id : string) :
  sameCursor a b -> sameCursor (storeResult a id) (storeResult b id).
Proof.
  unfold sameCursor. intros H.
  destruct (storeResult_fields a id) as (-> & -> & -> & -> & -> & -> & _).
  destruct (storeResult_fields b id) as (-> & -> & -> & -> & -> & -> & _).
  exact H.
Qed.

(** [Next] reads nothing but the cursor fields: on iterators that agree on
    them it gives the same answer, the same world and the same value. *)
Lemma Next_sameCursor (a b : Iterator) (w : W) :
  sameCursor a b ->
  match Next P E a w, Next P E b w with
  | (Ok (ba, a'), wa), (Ok (bb, b'), wb) =>
      ba = bb /\ wa = wb /\ sameCursor a' b' /\
      (ba = true -> Result a' = Result b')
  | (Panic ma, wa), (Panic mb, wb) => ma = mb /\ wa = wb
  | _, _ => False
  end.
Proof.
  intros (Hqs & Hall & Hty & Hq & Hrs & Hix).
  assert (Hsc : sameCursor a b) by (repeat split; assumption).
  assert (Hpage : forall rs a0 b0 w0, sameCursor a0 b0 ->
    match NextPage P E a0 rs w0, NextPage P E b0 rs w0 with
    | (Ok (ba, a'), wa), (Ok (bb, b'), wb) =>
        ba = bb /\ wa = wb /\ sameCursor a' b' /\
        (ba = true -> Result a' = Result b')
    | (Panic ma, wa), (Panic mb, wb) => ma = mb /\ wa = wb
    | _, _ => False
    end).
  { intros rs a0 b0 w0 H0. pose proof H0 as (Hqs0 & _ & Hty0 & _ & _ & Hix0).
    unfold NextPage. rewrite Hix0, Hqs0.
    destruct (resultIndex b0 <? len (HitsHits (Hits rs))).
    - destruct (sliceIndex (HitsHits (Hits rs)) (resultIndex b0)) as [h|msg];
        [|split; reflexivity].
      refine (conj eq_refl (conj eq_refl (conj _ _))).
      + apply storeResult_sameCursor. unfold sameCursor in *. cbn. intuition congruence.
      + intros _. rewrite !storeResult_Result. cbn. now rewrite Hty0.
    - destruct (ScrollNext E (qs b0) (indexName P) (ScrollId rs) w0) as [[e|r] w1].
      + refine (conj eq_refl (conj eq_refl (conj H0 _))). discriminate.
      + destruct (TotalHits (Hits r) =? 0).
        * refine (conj eq_refl (conj eq_refl (conj H0 _))). discriminate.
        * destruct (sliceIndex (HitsHits (Hits r)) 0) as [h|msg];
            [|split; reflexivity].
          refine (conj eq_refl (conj eq_refl (conj _ _))).
          -- apply storeResult_sameCursor. unfold sameCursor in *. cbn. intuition congruence.
          -- intros _. rewrite !storeResult_Result. cbn. now rewrite Hty0. }
  unfold Next, makeElasticResultSet. rewrite Hrs, Hall, Hqs, Hty, Hq.
  destruct (resultSet b) as [rs|].
  - apply Hpage, Hsc.
  - destruct (if isAll b
              then ScrollStart E (qs b) (indexName P) (resultType b) None w
              else ScrollStart E (qs b) (indexName P) (resultType b) (Some (query b)) w)
      as [[e|r] w1].
    + refine (conj eq_refl (conj eq_refl (conj Hsc _))). discriminate.
    + apply Hpage. unfold sameCursor in *. cbn. intuition congruence.
Qed.

Lemma advances_sameCursor (n : nat) :
  forall (a b : Iterator) (w : W),
    sameCursor a b -> advances P E n a w = advances P E n b w.
Proof.
  induction n as [|n IH]; intros a b w H; [reflexivity|].
  cbn [advances]. pose proof (Next_sameCursor a b w H) as HN.
  destruct (Next P E a w) as [[[ba a']|ma] wa];
    destruct (Next P E b w) as [[[bb b']|mb] wb]; try contradiction.
  - destruct HN as (<- & <- & Hc & Hr).
    destruct ba; [rewrite (Hr eq_refl)|]; f_equal; apply IH, Hc.
  - destruct HN as (<- & _). reflexivity.
Qed.

(** A call inside the page: the hit at the position is returned and the
    position moves on; the backend is not asked. *)
Lemma Next_in_page (it : Iterator) (rs : SearchResult) (i : nat)
    (h : SearchHit) (w : W) :
  resultSet it = Some rs ->
  nth_error (HitsHits (Hits rs)) i = Some h ->
  resultIndex it = Z.of_nat i ->
  Next P E it w =
    (Ok (true, storeResult (set_resultIndex it (Z.of_nat i + 1)) (Id h)), w).
Proof.
  intros Hrs Hnth Hix. unfold Next. rewrite Hrs. unfold NextPage, sliceIndex, len.
  assert (Hlt : (i < List.length (HitsHits (Hits rs)))%nat)
    by (apply nth_error_Some; congruence).
  rewrite Hix.
  replace (Z.of_nat i <? Z.of_nat (List.length (HitsHits (Hits rs)))) with true
    by (symmetry; apply Z.ltb_lt; lia).
  replace (Z.of_nat i <? 0) with false by (symmetry; apply Z.ltb_ge; lia).
  rewrite Nat2Z.id, Hnth. reflexivity.
Qed.

(** The first call of a fresh iterator continues as on the page the
    scroll-start request returned. *)
Lemma Next_start (it : Iterator) (r : SearchResult) (w w' : W) :
  resultSet it = None ->
  makeElasticResultSet P E it w = (ScrollOk r, w') ->
  Next P E it w = Next P E (set_resultSet it (Some r)) w'.
Proof.
  intros Hrs Hm. unfold Next. rewrite Hrs, Hm. reflexivity.
Qed.

(** ** Walking the pages *)

Lemma advances_page (rest : list SearchHit) :
  forall (pre : list SearchHit) (it : Iterator) (rs : SearchResult) (w : W) (n : nat),
    resultSet it = Some rs ->
    HitsHits (Hits rs) = pre ++ rest ->
    resultIndex it = len pre ->
    advances P E (List.length rest + n) it w =
      map (yielded (resultType it)) rest ++
      advances P E n (set_resultIndex it (len (HitsHits (Hits rs)))) w.
Proof.
  induction rest as [|h rest IH]; intros pre it rs w n Hrs Hhits Hix.
  - cbn [List.length map Nat.add app]. apply advances_sameCursor.
    rewrite Hhits, app_nil_r, <- Hix. unfold sameCursor. cbn. repeat split.
  - cbn [List.length Nat.add advances].
    rewrite (Next_in_page it rs (List.length pre) h w Hrs).
    2:{ rewrite Hhits, nth_error_app2, Nat.sub_diag by apply Nat.le_refl. reflexivity. }
    2:{ exact Hix. }
    set (it1 := storeResult (set_resultIndex it (Z.of_nat (List.length pre) + 1)) (Id h)).
    destruct (storeResult_fields (set_resultIndex it (Z.of_nat (List.length pre) + 1)) (Id h))
      as (Hq1 & Ha1 & Ht1 & Hqu1 & Hr1 & Hi1 & _).
    fold it1 in Hq1, Ha1, Ht1, Hqu1, Hr1, Hi1. cbn in Hq1, Ha1, Ht1, Hqu1, Hr1, Hi1.
    rewrite (IH (pre ++ [h]) it1 rs w n).
    + cbn [map app]. unfold it1 at 1. rewrite storeResult_Result. cbn.
      rewrite Ht1. unfold yielded at 1. f_equal. f_equal. apply advances_sameCursor.
      unfold sameCursor. cbn. repeat split; assumption.
    + rewrite Hr1. exact Hrs.
    + rewrite Hhits, <- app_assoc. reflexivity.
    + rewrite Hi1. unfold len. rewrite length_app. cbn. lia.
Qed.

Lemma advances_pages (total : Z) (pages : list (list SearchHit)) :
  total <> 0 ->
  Forall (fun p => p <> []) pages ->
  forall (it : Iterator) (rs : SearchResult) (w : W),
    resultSet it = Some rs ->
    resultIndex it = len (HitsHits (Hits rs)) ->
    ServesRest P E (qs it) total (ScrollId rs) pages w ->
    advances P E (List.length (List.concat pages) + 1) it w =
      map (yielded (resultType it)) (List.concat pages) ++ [Ok None].
Proof.
  intros Htot. induction pages as [|p ps IH]; intros Hne it rs w Hrs Hix Hserve.
  - cbn [List.concat List.length map app Nat.add advances].
    unfold Next. rewrite Hrs. unfold NextPage. rewrite Hix, Z.ltb_irrefl.
    cbn [ServesRest] in Hserve.
    destruct (ScrollNext E (qs it) (indexName P) (ScrollId rs) w) as [[e|r] w'];
      cbn [fst] in Hserve; [reflexivity|].
    rewrite Hserve. reflexivity.
  - inversion Hne as [|? ? Hp Hps]; subst.
    destruct p as [|h p]; [congruence|].
    cbn [ServesRest] in Hserve.
    destruct Hserve as (r & w' & Hnext & Hhits & Htotal & Hrest).
    cbn [List.concat List.length app Nat.add advances].
    unfold Next at 1. rewrite Hrs. unfold NextPage at 1.
    rewrite Hix, Z.ltb_irrefl, Hnext, Htotal.
    destruct (Z.eqb_spec total 0) as [|_]; [contradiction|].
    rewrite Hhits. cbn [sliceIndex Z.ltb Z.compare Z.to_nat nth_error].
    set (it1 := storeResult (set_resultIndex (set_resultSet it (Some r)) 1) (Id h)).
    destruct (storeResult_fields (set_resultIndex (set_resultSet it (Some r)) 1) (Id h))
      as (Hq1 & Ha1 & Ht1 & Hqu1 & Hr1 & Hi1 & _).
    fold it1 in Hq1, Ha1, Ht1, Hqu1, Hr1, Hi1. cbn in Hq1, Ha1, Ht1, Hqu1, Hr1, Hi1.
    rewrite length_app, <- Nat.add_assoc.
    rewrite (advances_page p [h] it1 r w' _ Hr1 Hhits Hi1).
    rewrite (IH Hps (set_resultIndex it1 (len (HitsHits (Hits r)))) r w').
    + unfold it1 at 1. rewrite storeResult_Result. cbn. rewrite Ht1.
      rewrite map_app, <- app_assoc. reflexivity.
    + cbn. exact Hr1.
    + reflexivity.
    + cbn. rewrite Hq1. exact Hrest.
Qed.

Lemma advances_served (total : Z) (pages : list (list SearchHit))
    (it : Iterator) (w : W) :
  total <> 0 ->
  Forall (fun p => p <> []) pages ->
  fresh it ->
  Serves P E it total pages w ->
  advances P E (List.length (List.concat pages) + 1) it w =
    map (yielded (resultType it)) (List.concat pages) ++ [Ok None].
Proof.
  intros Htot Hne [Hrs Hix] Hserve.
  destruct pages as [|p ps]; [contradiction|].
  destruct Hserve as (r & w' & Hstart & Hhits & _ & Hrest).
  inversion Hne as [|? ? _ Hps]; subst.
  rewrite Nat.add_1_r. cbn [advances].
  rewrite (Next_start it r w w' Hrs Hstart).
  change (advances P E (S (List.length (List.concat (HitsHits (Hits r) :: ps))))
            (set_resultSet it (Some r)) w' =
          map (yielded (resultType it)) (List.concat (HitsHits (Hits r) :: ps)) ++ [Ok None]).
  cbn [List.concat]. rewrite length_app, <- Nat.add_1_r, <- Nat.add_assoc.
  set (it0 := set_resultSet it (Some r)).
  assert (Hrs0 : resultSet it0 = Some r) by reflexivity.
  rewrite (advances_page (HitsHits (Hits r)) [] it0 r w' _ Hrs0 eq_refl Hix).
  set (it1 := set_resultIndex it0 (len (HitsHits (Hits r)))).
  assert (Hrs1 : resultSet it1 = Some r) by reflexivity.
  assert (Hix1 : resultIndex it1 = len (HitsHits (Hits r))) by reflexivity.
  rewrite (advances_pages total ps Htot Hps it1 r w' Hrs1 Hix1 Hrest).
  rewrite map_app, <- app_assoc. reflexivity.
Qed.

(** C1. Pagination: when the backend serves the [n] hits of a query in pages
    of [k] hits, [1 <= k <= n] (so single page [k = n] and one hit per page
    [k = 1] included), a fresh iterator's first [n] calls of [Next] return
    true and leave the hits' identifiers in [Result], in page order, and the
    call after them returns false. *)
Theorem Next_pagination (it : Iterator) (w : W) (hits : list SearchHit) (k : nat) :
  fresh it ->
  (1 <= k <= List.length hits)%nat ->
  Serves P E it (len hits) (pagesOf k hits) w ->
  advances P E (S (List.length hits)) it w =
    map (yielded (resultType it)) hits ++ [Ok None].
Proof.
  intros Hfresh [Hk Hn] Hserve.
  assert (Htot : len hits <> 0) by (unfold len; lia).
  pose proof (advances_served (len hits) (pagesOf k hits) it w Htot
                (pagesFuel_nonempty _ k Hk hits) Hfresh Hserve) as H.
  rewrite (pagesOf_concat k hits Hk), Nat.add_1_r in H. exact H.
Qed.

End NextFacts.

Ltac served := cbn; repeat first [reflexivity | split | eexists].

Lemma Next_pagination_witness :
  fresh subjectIterator /\
  (1 <= 2 <= 3)%nat /\
  advances testPkg scripted 4 subjectIterator
    (script ([], None)
       [ScrollOk (page 3 ["q1"; "q2"] "s1"); ScrollOk (page 3 ["q3"] "s2")] []) =
  [Ok (Some (VQuadHash "q1")); Ok (Some (VQuadHash "q2"));
   Ok (Some (VQuadHash "q3")); Ok None].
Proof.
  split; [split; reflexivity|]. split; [lia|].
  apply (Next_pagination testPkg Script scripted subjectIterator
           (script ([], None)
              [ScrollOk (page 3 ["q1"; "q2"] "s1"); ScrollOk (page 3 ["q3"] "s2")] [])
           [hit "q1"; hit "q2"; hit "q3"] 2).
  - split; reflexivity.
  - cbn. lia.
  - served.
Defined.

(** The two boundary page sizes: all three hits in one page, and one hit per
    page. *)
Example Next_pagination_single_page :
  advances testPkg scripted 4 subjectIterator
    (script ([], None) [ScrollOk (page 3 ["q1"; "q2"; "q3"] "s1")] []) =
  [Ok (Some (VQuadHash "q1")); Ok (Some (VQuadHash "q2"));
   Ok (Some (VQuadHash "q3")); Ok None].
Proof. reflexivity. Qed.

Example Next_pagination_one_per_page :
  advances testPkg scripted 4 subjectIterator
    (script ([], None)
       [ScrollOk (page 3 ["q1"] "s1"); ScrollOk (page 3 ["q2"] "s2");
        ScrollOk (page 3 ["q3"] "s3")] []) =
  [Ok (Some (VQuadHash "q1")); Ok (Some (VQuadHash "q2"));
   Ok (Some (VQuadHash "q3")); Ok None].
Proof. reflexivity. Qed.

(** ** After a call that returned false *)

Section Exhaustion.

Variable P : Pkg.
Variable W : Type.
Variable E : Env W.

Lemma NextPage_false (it it' : Iterator) (rs : SearchResult) (w w' : W) :
  NextPage P E it rs w = (Ok (false, it'), w') ->
  it' = it /\ (resultIndex it <? len (HitsHits (Hits rs))) = false.
Proof.
  unfold NextPage.
  destruct (resultIndex it <? len (HitsHits (Hits rs))).
  - destruct (sliceIndex _ _); intros H; inversion H.
  - destruct (ScrollNext E (qs it) (indexName P) (ScrollId rs) w) as [[e|r] w1].
    + intros H; inversion H; split; reflexivity.
    + destruct (TotalHits (Hits r) =? 0).
      * intros H; inversion H; split; reflexivity.
      * destruct (sliceIndex _ _); intros H; inversion H.
Qed.

(** A call that returned false leaves the iterator without a page (the
    scroll-start request failed) or at the end of the page it holds. *)
Lemma Next_false_state (it it' : Iterator) (w w' : W) :
  Next P E it w = (Ok (false, it'), w') ->
  (resultSet it' = None /\ it' = it) \/
  (exists rs, resultSet it' = Some rs /\
              (resultIndex it' <? len (HitsHits (Hits rs))) = false).
Proof.
  unfold Next. destruct (resultSet it) as [rs|] eqn:Hrs.
  - intros H. apply NextPage_false in H as [-> Hix].
    right. exists rs. split; assumption.
  - destruct (makeElasticResultSet P E it w) as [[e|r] w1].
    + intros H; inversion H; subst. left. split; [assumption | reflexivity].
    + intros H. apply NextPage_false in H as [-> Hix].
      right. exists r. split; [reflexivity | exact Hix].
Qed.

(** From such a state a call that the backend refuses returns false and
    changes nothing. *)
Lemma Next_refused (it' : Iterator) (w2 : W) :
  (resultSet it' = None \/
   exists rs, resultSet it' = Some rs /\
              (resultIndex it' <? len (HitsHits (Hits rs))) = false) ->
  refusedAt P E it' w2 ->
  exists w3, Next P E it' w2 = (Ok (false, it'), w3).
Proof.
  intros Hstate Href. unfold refusedAt in Href. unfold Next.
  destruct Hstate as [Hnone | (rs & Hrs & Hix)].
  - rewrite Hnone in *.
    destruct (makeElasticResultSet P E it' w2) as [[e|r] w3];
      cbn [fst] in Href; [|contradiction].
    exists w3. reflexivity.
  - rewrite Hrs in *. unfold NextPage. rewrite Hix.
    destruct (ScrollNext E (qs it') (indexName P) (ScrollId rs) w2) as [[e|r] w3];
      cbn [fst] in Href.
    + exists w3. reflexivity.
    + exists w3. rewrite Href. reflexivity.
Qed.

(** From such a state a call that the backend answers with a page to read
    returns true on the first hit of that page. *)
Lemma Next_answered (it' : Iterator) (w2 : W) :
  (resultSet it' = None \/
   exists rs, resultSet it' = Some rs /\
              (resultIndex it' <? len (HitsHits (Hits rs))) = false) ->
  indexInRange it' ->
  answeredAt P E it' w2 ->
  exists it'' w3 r h,
    Next P E it' w2 = (Ok (true, it''), w3) /\
    resultSet it'' = Some r /\ resultIndex it'' = 1 /\
    nth_error (HitsHits (Hits r)) 0 = Some h /\
    Result it'' = hitValue (resultType it') h.
Proof.
  intros Hstate Hin Hans. unfold answeredAt in Hans. unfold indexInRange in Hin.
  unfold Next. destruct (resultSet it') as [rs|] eqn:Hrs.
  - destruct Hstate as [Hnone | (rs0 & Heq & Hix)]; [discriminate|].
    inversion Heq; subst rs0. unfold NextPage. rewrite Hix.
    destruct (ScrollNext E (qs it') (indexName P) (ScrollId rs) w2) as [[e|r] w3];
      cbn [fst] in Hans; [contradiction|].
    destruct Hans as [Htot Hhits].
    destruct (Z.eqb_spec (TotalHits (Hits r)) 0) as [|_]; [contradiction|].
    destruct (HitsHits (Hits r)) as [|h hs] eqn:Hh; [contradiction|].
    cbn [sliceIndex Z.ltb Z.compare Z.to_nat nth_error].
    exists (storeResult (set_resultIndex (set_resultSet it' (Some r)) 1) (Id h)), w3, r, h.
    destruct (storeResult_fields (set_resultIndex (set_resultSet it' (Some r)) 1) (Id h))
      as (_ & _ & _ & _ & Hr & Hi & _).
    rewrite Hr, Hi, Hh, storeResult_Result. cbn. repeat split.
  - destruct (makeElasticResultSet P E it' w2) as [[e|r] w3];
      cbn [fst] in Hans; [contradiction|].
    destruct (HitsHits (Hits r)) as [|h hs] eqn:Hh; [contradiction|].
    unfold NextPage. cbn [resultIndex set_resultSet]. rewrite Hin, Hh.
    cbn [len List.length]. replace (0 <? Z.of_nat (S (List.length hs))) with true
      by (symmetry; apply Z.ltb_lt; lia).
    cbn [sliceIndex Z.ltb Z.compare Z.to_nat nth_error].
    exists (storeResult (set_resultIndex (set_resultSet it' (Some r)) (0 + 1)) (Id h)),
      w3, r, h.
    destruct (storeResult_fields
                (set_resultIndex (set_resultSet it' (Some r)) (0 + 1)) (Id h))
      as (_ & _ & _ & _ & Hr & Hi & _).
    rewrite Hr, Hi, Hh, storeResult_Result. cbn. repeat split.
Qed.


(** [Next] never writes the sticky error. *)
Lemma Next_err_unchanged (it it' : Iterator) (b : bool) (w w' : W) :
  Next P E it w = (Ok (b, it'), w') -> Err it' = Err it.
Proof.
  assert (Hpage : forall it0 rs w0,
            NextPage P E it0 rs w0 = (Ok (b, it'), w') -> Err it' = Err it0).
  { intros it0 rs w0. unfold NextPage, Err.
    destruct (resultIndex it0 <? len (HitsHits (Hits rs))).
    - destruct (sliceIndex _ _) as [h|msg]; intros H; inversion H.
      now destruct (storeResult_fields (set_resultIndex it0 (resultIndex it0 + 1)) (Id h))
        as (_ & _ & _ & _ & _ & _ & -> & _).
    - destruct (ScrollNext E (qs it0) (indexName P) (ScrollId rs) w0) as [[e|r] w1].
      + intros H; inversion H; reflexivity.
      + destruct (TotalHits (Hits r) =? 0); [intros H; inversion H; reflexivity|].
        destruct (sliceIndex _ _) as [h|msg]; intros H; inversion H.
        now destruct (storeResult_fields
                        (set_resultIndex (set_resultSet it0 (Some r)) 1) (Id h))
          as (_ & _ & _ & _ & _ & _ & -> & _). }
  unfold Next. destruct (resultSet it) as [rs|].
  - apply Hpage.
  - destruct (makeElasticResultSet P E it w) as [[e|r] w1].
    + intros H; inversion H; reflexivity.
    + intros H. apply Hpage in H. exact H.
Qed.

(** The position stays within the page across every call of [Next] that
    returns. *)
Lemma Next_indexInRange (it it' : Iterator) (b : bool) (w w' : W) :
  indexInRange it ->
  Next P E it w = (Ok (b, it'), w') -> indexInRange it'.
Proof.
  assert (Hpage : forall it0 rs w0,
            resultSet it0 = Some rs ->
            0 <= resultIndex it0 <= len (HitsHits (Hits rs)) ->
            NextPage P E it0 rs w0 = (Ok (b, it'), w') -> indexInRange it').
  { intros it0 rs w0 Hrs Hix. unfold NextPage, indexInRange.
    destruct (Z.ltb_spec (resultIndex it0) (len (HitsHits (Hits rs)))) as [Hlt|Hge].
    - destruct (sliceIndex _ _) as [h|msg]; intros H; inversion H.
      destruct (storeResult_fields (set_resultIndex it0 (resultIndex it0 + 1)) (Id h))
        as (_ & _ & _ & _ & -> & -> & _). cbn. rewrite Hrs. lia.
    - destruct (ScrollNext E (qs it0) (indexName P) (ScrollId rs) w0) as [[e|r] w1].
      + intros H; inversion H; subst. now rewrite Hrs.
      + destruct (TotalHits (Hits r) =? 0);
          [intros H; inversion H; subst; now rewrite Hrs|].
        unfold sliceIndex. cbn [Z.ltb Z.compare Z.to_nat nth_error].
        destruct (HitsHits (Hits r)) as [|h hs] eqn:Hh; intros H; inversion H.
        destruct (storeResult_fields
                    (set_resultIndex (set_resultSet it0 (Some r)) 1) (Id h))
          as (_ & _ & _ & _ & -> & -> & _). cbn. rewrite Hh. unfold len. cbn. lia. }
  unfold indexInRange at 1, Next. destruct (resultSet it) as [rs|] eqn:Hrs.
  - intros Hix. apply Hpage; assumption.
  - intros Hix. destruct (makeElasticResultSet P E it w) as [[e|r] w1].
    + intros H; inversion H; subst. unfold indexInRange. now rewrite Hrs.
    + apply Hpage; [reflexivity|]. cbn. rewrite Hix. unfold len. lia.
Qed.

(** X5. While the backend keeps refusing, every later call returns false. *)
Lemma advances_all_false (it it' : Iterator) (w w' : W) :
  Next P E it w = (Ok (false, it'), w') ->
  (forall w0, refusedAt P E it' w0) ->
  forall n w2, advances P E n it' w2 = repeat (Ok None) n.
Proof.
  intros H Href n.
  assert (Hstate : resultSet it' = None \/
                   exists rs, resultSet it' = Some rs /\
                     (resultIndex it' <? len (HitsHits (Hits rs))) = false).
  { destruct (Next_false_state it it' w w' H) as [[Hnone _] | Hend];
      [left; exact Hnone | right; exact Hend]. }
  induction n as [|n IH]; intros w2; [reflexivity|].
  destruct (Next_refused it' w2 Hstate (Href w2)) as (w3 & H3).
  cbn [advances repeat]. rewrite H3, IH. reflexivity.
Qed.

Lemma Reset_indexInRange (it : Iterator) : indexInRange (Reset it).
Proof. reflexivity. Qed.

Lemma fresh_indexInRange (it : Iterator) : fresh it -> indexInRange it.
Proof. intros [Hrs Hix]. unfold indexInRange. now rewrite Hrs. Qed.

End Exhaustion.



(** The guard on the re-queried page tests its total-hit count, not the
    length of its hit list: a raw answer that reports a total of one and
    carries no hit would make [Next] read element 0 of an empty hit list.
    The search client never hands such an answer on ([clientContract]). *)
Example Next_reads_past_empty_page :
  advances testPkg scripted 2 subjectIterator
    (script ([], None)
       [ScrollOk (page 1 ["q1"] "s1"); ScrollOk (page 1 [] "s1")] []) =
  [Ok (Some (VQuadHash "q1")); Panic "index out of range"].
Proof. reflexivity. Qed.

(** C5. A failed scroll-start request and a failed scroll-continue request
    make [Next] return false, and [Err] is nil afterwards: the error is not
    recorded. *)
Theorem Next_drops_scroll_error :
  (exists it' w',
     Next testPkg scripted subjectIterator
       (script ([], None) [ScrollErr "connection refused"] []) =
       (Ok (false, it'), w') /\ Err it' = None) /\
  (exists it' w',
     Next testPkg scripted
       (set_resultIndex (set_resultSet subjectIterator (Some (page 2 ["q1"] "s1"))) 1)
       (script ([], None) [ScrollErr "connection reset"] []) =
       (Ok (false, it'), w') /\ Err it' = None).
Proof. split; do 2 eexists; split; reflexivity. Qed.

(** ** Query translation *)

Lemma existsb_eqb_absent (v : string) (l : list string) :
  ~ In v l -> existsb (String.eqb v) l = false.
Proof.
  intros Hnot. destruct (existsb (String.eqb v) l) eqn:Hex; [|reflexivity].
  apply existsb_exists in Hex as (x & Hin & Heq).
  apply String.eqb_eq in Heq. subst x. contradiction.
Qed.

Lemma nullterm_matchesNothing : matchesNothing nullterm.
Proof.
  intros S d Hd. unfold nullterm. cbn [matches].
  apply existsb_eqb_absent, Hd.
Qed.

Lemma BoolFilter_nullterm_matchesNothing (fs : list Query) :
  matchesNothing (BoolFilter (fs ++ [nullterm])).
Proof.
  intros S d Hd. cbn [matches]. rewrite forallb_app.
  cbn [forallb]. rewrite (nullterm_matchesNothing S d Hd).
  apply andb_false_r.
Qed.

Section Translation.

Variable P : Pkg.
Variable W : Type.
Variable E : Env W.

Lemma metadataFilters_cons (fm : list (string * JSON)) (d : Direction)
    (key value : string) (rest : list (string * string)) (acc : list Query) :
  metadataFilters P fm d ((key, value) :: rest) acc =
    if isTime P fm key d then
      if len (Split value "=>") <? 2 then acc ++ [nullterm]
      else
        metadataFilters P fm d rest
          (acc ++ [RangeQuery (Direction_String P d ++ "." ++ key)%string
                     (nth 0 (Split value "=>") EmptyString)
                     (nth 1 (Split value "=>") EmptyString)])
    else
      metadataFilters P fm d rest
        (acc ++ [RegexpQuery (Direction_String P d ++ "." ++ key)%string value]).
Proof. reflexivity. Qed.

(** The range loop stops at the first malformed time range it visits: the
    filters of the entries before it are kept, the match-nothing term is
    appended, and no entry after it contributes. *)
Lemma metadataFilters_malformed (fm : list (string * JSON)) (d : Direction)
    (entries : list (string * string)) :
  forall acc : list Query,
    (exists kv, In kv entries /\ malformedRange P fm d kv = true) ->
    exists pre kv post,
      entries = pre ++ kv :: post /\
      malformedRange P fm d kv = true /\
      metadataFilters P fm d entries acc =
        metadataFilters P fm d pre acc ++ [nullterm] /\
      List.length (metadataFilters P fm d pre acc) =
        (List.length acc + List.length pre)%nat.
Proof.
  induction entries as [|[key value] rest IH]; intros acc (kv & Hin & Hbad).
  - destruct Hin.
  - destruct (malformedRange P fm d (key, value)) eqn:Hhead.
    + exists [], (key, value), rest. repeat split; try assumption.
      * unfold malformedRange in Hhead. cbn [fst snd] in Hhead.
        apply andb_true_iff in Hhead as [Ht Hl].
        cbn [metadataFilters]. rewrite Ht, Hl. reflexivity.
      * cbn. lia.
    + assert (Hrest : exists kv0, In kv0 rest /\ malformedRange P fm d kv0 = true).
      { destruct Hin as [<-|Hin]; [congruence|]. exists kv. split; assumption. }
      unfold malformedRange in Hhead. cbn [fst snd] in Hhead.
      destruct (isTime P fm key d) eqn:Ht; cbn [andb] in Hhead.
      * destruct (IH (acc ++ [RangeQuery (Direction_String P d ++ "." ++ key)%string
                               (nth 0 (Split value "=>") EmptyString)
                               (nth 1 (Split value "=>") EmptyString)]) Hrest)
          as (pre & kv1 & post & -> & Hbad1 & Heq & Hlen).
        exists ((key, value) :: pre), kv1, post.
        rewrite !metadataFilters_cons, Ht, Hhead.
        split; [reflexivity|]. split; [assumption|]. split; [exact Heq|].
        rewrite Hlen, length_app. cbn. lia.
      * destruct (IH (acc ++ [RegexpQuery (Direction_String P d ++ "." ++ key)%string value])
                    Hrest)
          as (pre & kv1 & post & -> & Hbad1 & Heq & Hlen).
        exists ((key, value) :: pre), kv1, post.
        rewrite !metadataFilters_cons, Ht.
        split; [reflexivity|]. split; [assumption|]. split; [exact Heq|].
        rewrite Hlen, length_app. cbn. lia.
Qed.

Lemma isTime_nil (key : string) (d : Direction) : isTime P [] key d = false.
Proof. reflexivity. Qed.

(** A failed field-mapping request leaves [getFieldMap] with the nil map. *)
Lemma getFieldMap_unavailable (qs0 : QuadStore) (w : W) :
  snd (fst (GetFieldMapping E qs0 (indexName P) "quads" w)) <> None ->
  fst (getFieldMap P E qs0 w) = [].
Proof.
  unfold getFieldMap.
  destruct (GetFieldMapping E qs0 (indexName P) "quads" w) as [[fields [e|]] w1];
    cbn [fst snd]; [reflexivity | congruence].
Qed.

(** So does an answer that lacks the index, its mappings or the "quads"
    type. *)
Lemma getFieldMap_malformed (qs0 : QuadStore) (w : W) :
  asMap (mapIndex (fst (fst (GetFieldMapping E qs0 (indexName P) "quads" w)))
           (indexName P)) = Panic "interface conversion: not map[string]interface {}" ->
  fst (getFieldMap P E qs0 w) = [].
Proof.
  unfold getFieldMap.
  destruct (GetFieldMapping E qs0 (indexName P) "quads" w) as [[fields [e|]] w1];
    cbn [fst snd]; [reflexivity|].
  intros ->. reflexivity.
Qed.

(** C4. Translating a metadata request never fails: [NewIterator] returns an
    iterator for every filter map and every state of the backend.  When the
    schema is empty or unavailable the predicate is the match-nothing term.
    When some time-typed filter value has fewer than two parts around the
    range delimiter, the predicate matches nothing: it is the conjunction of
    the filters of the entries visited before the first such entry and the
    match-nothing term, and no later entry adds a filter. *)
Theorem NewIterator_metadata_safe_default (qs0 : QuadStore) (rt : string)
    (m : list (string * string)) (w : W) :
  (forall m0 w0 kv, In kv m0 -> In kv (fst (MapRange E m0 w0))) ->
  exists it w',
    NewIterator P E qs0 rt QuadMetadata (VQuadRef m) w = (Ok it, w') /\
    (snd (fst (GetFieldMapping E qs0 (indexName P) "quads" w)) <> None ->
       query it = nullterm /\ matchesNothing (query it)) /\
    (len (fst (getFieldMap P E qs0 w)) = 0 ->
       query it = nullterm /\ matchesNothing (query it)) /\
    ((exists kv, In kv m /\
        malformedRange P (fst (getFieldMap P E qs0 w)) QuadMetadata kv = true) ->
       matchesNothing (query it) /\
       exists pre kv post,
         fst (MapRange E m (snd (getFieldMap P E qs0 w))) = pre ++ kv :: post /\
         malformedRange P (fst (getFieldMap P E qs0 w)) QuadMetadata kv = true /\
         query it =
           BoolFilter
             (metadataFilters P (fst (getFieldMap P E qs0 w)) QuadMetadata pre []
                ++ [nullterm]) /\
         List.length
           (metadataFilters P (fst (getFieldMap P E qs0 w)) QuadMetadata pre []) =
           List.length pre).
Proof.
  intros Hvisit. pose proof (getFieldMap_unavailable qs0 w) as Hun.
  unfold NewIterator. cbn [Direction_eqb].
  destruct (getFieldMap P E qs0 w) as [fm w1]. cbn [fst snd] in *.
  destruct (Z.eqb_spec (len fm) 0) as [Hempty|Hfull]; cbn [negb].
  - destruct (NextUID E w1) as [u w3]. do 2 eexists.
    split; [reflexivity|]. cbn [query mkIterator].
    split; [intros _; split; [reflexivity | apply nullterm_matchesNothing]|].
    split.
    + intros _. split; [reflexivity | apply nullterm_matchesNothing].
    + intros (kv & _ & Hbad). exfalso.
      destruct fm; [|unfold len in Hempty; cbn in Hempty; lia].
      unfold malformedRange in Hbad. rewrite isTime_nil in Hbad. discriminate.
  - destruct (MapRange E m w1) as [entries w2] eqn:HR.
    destruct (NextUID E w2) as [u w3]. do 2 eexists.
    split; [reflexivity|]. cbn [query mkIterator fst].
    split; [intros Herr; rewrite (Hun Herr) in Hfull; now elim Hfull|].
    split.
    + intros Hempty. contradiction.
    + intros (kv & Hin & Hbad).
      assert (Hin' : In kv entries).
      { pose proof (Hvisit m w1 kv Hin) as H. rewrite HR in H. exact H. }
      destruct (metadataFilters_malformed fm QuadMetadata entries []
                  (ex_intro _ kv (conj Hin' Hbad)))
        as (pre & kv1 & post & Hsplit & Hbad1 & Heq & Hlen).
      rewrite Heq. split; [apply BoolFilter_nullterm_matchesNothing|].
      exists pre, kv1, post. repeat split; assumption.
Qed.

End Translation.

Lemma NewIterator_metadata_safe_default_witness :
  exists it w',
    NewIterator testPkg scripted theStore "quads" QuadMetadata
      (VQuadRef [("x", "y.*"); ("created", "only-one-part"); ("z", "w")])
      (script (dateMapping, None) [] []) = (Ok it, w') /\
    matchesNothing (query it).
Proof.
  destruct (NewIterator_metadata_safe_default testPkg Script scripted theStore "quads"
              [("x", "y.*"); ("created", "only-one-part"); ("z", "w")]
              (script (dateMapping, None) [] []))
    as (it & w' & Hnew & _ & _ & Hbad).
  - intros m0 w0 kv Hin. exact Hin.
  - exists it, w'. split; [exact Hnew|].
    apply Hbad. exists ("created", "only-one-part").
    split; [right; left; reflexivity | reflexivity].
Defined.

(** ** Membership test *)

Lemma Direction_eqb_eq (a b : Direction) : Direction_eqb a b = true <-> a = b.
Proof. destruct a, b; cbn; split; intros H; congruence. Qed.

(** C6 (amended). [Contains] on an "all" iterator returns true for every
    candidate and stores the candidate in [Result].  On a directed
    exact-match iterator with target [h] and a candidate that is a quad
    identifier it returns true, storing the candidate, when the candidate's
    component on the iterator's direction is [h], and false, storing nothing,
    otherwise.  On a metadata iterator it returns true for every candidate
    that is a quad identifier, storing the candidate. *)
Theorem Contains_contract (P : Pkg) (it : Iterator) :
  (isAll it = true ->
     forall v, Contains P it v = Ok (true, set_result it v)) /\
  (isAll it = false -> dir it <> QuadMetadata ->
     forall h q, hash it = VNodeHash h ->
       (QuadHash_Get P q (dir it) = h ->
          Contains P it (VQuadHash q) = Ok (true, set_result it (VQuadHash q))) /\
       (QuadHash_Get P q (dir it) <> h ->
          Contains P it (VQuadHash q) = Ok (false, it))) /\
  (isAll it = false -> dir it = QuadMetadata ->
     forall q, Contains P it (VQuadHash q) = Ok (true, set_result it (VQuadHash q))).
Proof.
  unfold Contains. split; [|split].
  - intros Hall v. rewrite Hall. reflexivity.
  - intros Hall Hd h q Hh. rewrite Hall, Hh. cbn [NodeHash_eq]. split.
    + intros Hget. apply String.eqb_eq in Hget. rewrite Hget. reflexivity.
    + intros Hget. apply String.eqb_neq in Hget. rewrite Hget.
      destruct (Direction_eqb (dir it) QuadMetadata) eqn:Hdm; [|reflexivity].
      apply Direction_eqb_eq in Hdm. contradiction.
  - intros Hall Hd q. rewrite Hall, Hd. cbn [Direction_eqb].
    rewrite orb_true_r. reflexivity.
Qed.

Lemma Contains_contract_witness :
  Contains testPkg subjectIterator (VQuadHash "abcd") =
    Ok (true, set_result subjectIterator (VQuadHash "abcd")) /\
  Contains testPkg subjectIterator (VQuadHash "xbcd") = Ok (false, subjectIterator) /\
  Contains testPkg metadataIterator (VQuadHash "abcd") =
    Ok (true, set_result metadataIterator (VQuadHash "abcd")).
Proof.
  destruct (Contains_contract testPkg subjectIterator) as (_ & Hexact & _).
  destruct (Contains_contract testPkg metadataIterator) as (_ & _ & Hmeta).
  split; [|split].
  - apply (Hexact eq_refl ltac:(discriminate) "a" "abcd" eq_refl). reflexivity.
  - apply (Hexact eq_refl ltac:(discriminate) "a" "xbcd" eq_refl). discriminate.
  - apply (Hmeta eq_refl eq_refl).
Defined.

(** Counterexample to C6 as stated. A metadata iterator does not return true for a
    candidate that is a node identifier: the call panics. *)
Lemma Contains_metadata_panics_on_node :
  Contains testPkg metadataIterator (VNodeHash "n") =
    Panic "interface conversion: not QuadHash".
Proof. reflexivity. Qed.

(** C10. On an iterator that is not an "all" iterator, metadata iterators
    included, [Contains] returns exactly when the candidate is a quad
    identifier; any other candidate makes it panic, and never makes it
    return false. *)
Theorem Contains_total_only_on_QuadHash (P : Pkg) (it : Iterator) (v : Value) :
  isAll it = false ->
  ((exists q, v = VQuadHash q) <-> (exists r, Contains P it v = Ok r)) /\
  ((forall q, v <> VQuadHash q) -> exists msg, Contains P it v = Panic msg).
Proof.
  intros Hall. unfold Contains. rewrite Hall. split; [split|].
  - intros (q & ->).
    destruct (NodeHash_eq (QuadHash_Get P q (dir it)) (hash it)
              || Direction_eqb (dir it) QuadMetadata); eexists; reflexivity.
  - intros (r & H). destruct v; try discriminate. eexists; reflexivity.
  - intros Hnot. destruct v as [h|q|m|]; try (eexists; reflexivity).
    exfalso. apply (Hnot q). reflexivity.
Qed.

Lemma Contains_total_only_on_QuadHash_witness :
  isAll metadataIterator = false /\
  exists msg, Contains testPkg metadataIterator (VNodeHash "n") = Panic msg.
Proof.
  split; [reflexivity|].
  apply (Contains_total_only_on_QuadHash testPkg metadataIterator (VNodeHash "n") eq_refl).
  intros q. discriminate.
Defined.

(** ** The cached size *)

(** C7 (amended). The first call of [Size] on an iterator whose size is not
    yet computed issues the count query, stores the value it returns and
    returns it, recording a failure of the query as the sticky error.  When
    that value is not -1, every later call returns it again without asking
    the backend, whatever the backend has become; when it is -1, the marker
    of an uncomputed size, a later call issues the count query again. *)
Theorem Size_cached_once {W : Type} (E : Env W) (it : Iterator) (w w1 : W)
    (n : Z) (e : option error) :
  size it = -1 ->
  getSize E (qs it) (resultType it) (query it) w = ((n, e), w1) ->
  exists it1,
    Size E it w = ((n, true), it1, w1) /\
    size it1 = n /\
    (e <> None -> Err it1 = e) /\
    (n <> -1 ->
       forall (E' : Env W) (w2 : W), Size E' it1 w2 = ((n, true), it1, w2)) /\
    (n = -1 ->
       forall (E' : Env W) (w2 : W),
         fst (fst (Size E' it1 w2)) =
           (fst (fst (getSize E' (qs it) (resultType it) (query it) w2)), true)).
Proof.
  intros Hsize Hget. unfold Size at 1. rewrite Hsize, Hget. cbn [Z.eqb].
  assert (Hlater : forall it1 : Iterator,
            size it1 = n -> qs it1 = qs it -> resultType it1 = resultType it ->
            query it1 = query it ->
            (n <> -1 ->
               forall (E' : Env W) (w2 : W), Size E' it1 w2 = ((n, true), it1, w2)) /\
            (n = -1 ->
               forall (E' : Env W) (w2 : W),
                 fst (fst (Size E' it1 w2)) =
                   (fst (fst (getSize E' (qs it) (resultType it) (query it) w2)), true))).
  { intros it1 Hn Hqs Hrt Hq. split.
    - intros Hne E' w2. unfold Size. rewrite Hn.
      destruct (Z.eqb_spec n (-1)); [contradiction | reflexivity].
    - intros Heq E' w2. unfold Size. rewrite Hn, Heq, Hqs, Hrt, Hq. cbn [Z.eqb].
      destruct (getSize E' (qs it) (resultType it) (query it) w2) as [[n2 e2] w3].
      destruct e2; reflexivity. }
  destruct e as [msg|].
  - eexists. split; [reflexivity|]. split; [reflexivity|].
    split; [intros _; reflexivity|]. apply Hlater; reflexivity.
  - eexists. split; [reflexivity|]. split; [reflexivity|].
    split; [intros Hne; congruence|]. apply Hlater; reflexivity.
Qed.

Lemma Size_cached_once_witness :
  exists it1,
    Size scripted subjectIterator (script ([], None) [] [(0, Some "count failed"); (7, None)]) =
      ((0, true), it1, script ([], None) [] [(7, None)]) /\
    Err it1 = Some "count failed" /\
    Size scripted it1 (script ([], None) [] [(7, None)]) =
      ((0, true), it1, script ([], None) [] [(7, None)]).
Proof.
  destruct (Size_cached_once scripted subjectIterator
              (script ([], None) [] [(0, Some "count failed"); (7, None)])
              (script ([], None) [] [(7, None)]) 0 (Some "count failed")
              eq_refl eq_refl)
    as (it1 & Hfirst & _ & Herr & Hhit & _).
  exists it1. split; [exact Hfirst|]. split; [apply Herr; discriminate|].
  apply Hhit. discriminate.
Defined.

(** Counterexample to C7 as stated. When the count query answers -1 together with
    an error, the second call of [Size] asks the backend again and returns
    another value. *)
Lemma Size_requeries_after_minus_one :
  fst (fst (Size scripted subjectIterator
              (script ([], None) [] [(-1, Some "count failed"); (7, None)]))) =
    (-1, true) /\
  fst (fst (Size scripted
              (snd (fst (Size scripted subjectIterator
                           (script ([], None) [] [(-1, Some "count failed"); (7, None)]))))
              (snd (Size scripted subjectIterator
                      (script ([], None) [] [(-1, Some "count failed"); (7, None)]))))) =
    (7, true).
Proof. split; reflexivity. Qed.

(** ** Reset *)

(** C8. [Reset] drops the page and puts the position back to 0; every other
    field, the predicate and the cached size among them, is left as it
    was. *)
Theorem Reset_frame (it : Iterator) :
  resultSet (Reset it) = None /\
  resultIndex (Reset it) = 0 /\
  uid (Reset it) = uid it /\
  tags (Reset it) = tags it /\
  qs (Reset it) = qs it /\
  dir (Reset it) = dir it /\
  scrollId (Reset it) = scrollId it /\
  hash (Reset it) = hash it /\
  size (Reset it) = size it /\
  isAll (Reset it) = isAll it /\
  resultType (Reset it) = resultType it /\
  types (Reset it) = types it /\
  query (Reset it) = query it /\
  result (Reset it) = result it /\
  err (Reset it) = err it.
Proof. unfold Reset. cbn. repeat split. Qed.

(** After [Reset] a computed size is still answered from the cache. *)
Lemma Size_after_Reset {W : Type} (E : Env W) (it : Iterator) (w : W) :
  size it <> -1 -> Size E (Reset it) w = ((size it, true), Reset it, w).
Proof.
  intros Hne. unfold Size. cbn [size Reset set_resultIndex set_resultSet].
  destruct (Z.eqb_spec (size it) (-1)); [contradiction | reflexivity].
Qed.

(** ** Clone *)

Lemma nth_error_storeSet_other (st : Store) :
  forall (a c : nat) (x : Iterator),
    c <> a -> nth_error (storeSet st a x) c = nth_error st c.
Proof.
  induction st as [|y st IH]; intros a c x Hne; [reflexivity|].
  destruct a as [|a]; destruct c as [|c]; cbn; try reflexivity; try congruence.
  apply IH. congruence.
Qed.

(** Copying into the empty tagger of a new iterator gives the bindings of
    the source. *)
Lemma CopyFrom_emptyTagger (t : Tagger) :
  tagger_tags (CopyFrom emptyTagger t) = tagger_tags t /\
  fixedTags (CopyFrom emptyTagger t) = fixedTags t.
Proof. cbn. split; [reflexivity | apply app_nil_r]. Qed.

Section CloneFacts.

Variable P : Pkg.
Variable W : Type.
Variable E : Env W.

(** A call of [Next] through one pointer leaves every other iterator of the
    store as it is. *)
Lemma NextAt_frame (st st' : Store) (a c : nat) (b : bool) (w w' : W) :
  NextAt P E st a w = (Ok (b, st'), w') ->
  c <> a -> nth_error st' c = nth_error st c.
Proof.
  unfold NextAt. destruct (nth_error st a) as [it|]; [|discriminate].
  destruct (Next P E it w) as [[[b0 it']|msg] w0]; intros H Hne; inversion H.
  apply nth_error_storeSet_other, Hne.
Qed.

(** [Clone] reads the request fields and the tags of the original, nothing
    else. *)
Lemma Clone_request_only (a b : Iterator) (w : W) :
  qs a = qs b -> resultType a = resultType b -> dir a = dir b ->
  hash a = hash b -> isAll a = isAll b -> tags a = tags b ->
  Clone P E a w = Clone P E b w.
Proof.
  intros Hqs Hrt Hd Hh Ha Ht. unfold Clone. rewrite Hqs, Hrt, Hd, Hh, Ha, Ht.
  reflexivity.
Qed.

Lemma Clone_built (it : Iterator) (w : W) :
  requestOk P it ->
  exists u q w',
    Clone P E it w =
      (Ok (set_tags
             (mkIterator u (qs it) (dir it) (resultType it) q (hash it) (isAll it))
             (CopyFrom emptyTagger (tags it))), w') /\
    (isAll it = true \/ dir it <> QuadMetadata -> q = query it).
Proof.
  unfold requestOk, Clone.
  destruct (isAll it) eqn:Hall.
  - intros (Hdir & Hhash & Hq). unfold NewAllIterator.
    destruct (NextUID E w) as [u w1].
    exists u, (TypeQuery (resultType it)), w1. split.
    + rewrite Hdir, Hhash. reflexivity.
    + intros _. symmetry. exact Hq.
  - destruct (Direction_eqb (dir it) QuadMetadata) eqn:Hd.
    + intros (m & Hhash). apply Direction_eqb_eq in Hd.
      unfold NewIterator. rewrite Hd, Hhash. cbn [Direction_eqb].
      destruct (getFieldMap P E (qs it) w) as [fm w1].
      destruct (negb (len fm =? 0)).
      * destruct (MapRange E m w1) as [entries w2].
        destruct (NextUID E w2) as [u w3].
        exists u, (BoolFilter (metadataFilters P fm QuadMetadata entries [])), w3.
        split; [reflexivity|]. intros [H|H]; [discriminate | contradiction].
      * destruct (NextUID E w1) as [u w3].
        exists u, nullterm, w3.
        split; [reflexivity|]. intros [H|H]; [discriminate | contradiction].
    + intros (h & Hhash & Hq). unfold NewIterator. rewrite Hd, Hhash.
      destruct (NextUID E w) as [u w1].
      exists u, (TermQuery (Direction_String P (dir it)) h), w1.
      split; [reflexivity|]. intros _. symmetry. exact Hq.
Qed.

(** X15. A metadata iterator and its clone carry the same predicate when the
    schema and the order of the range loop are at cloning what they were at
    construction. *)
Lemma Clone_metadata_same_predicate (qs0 : QuadStore) (rt : string)
    (m : list (string * string)) (it0 : Iterator) (wc wc' w : W) :
  NewIterator P E qs0 rt QuadMetadata (VQuadRef m) wc = (Ok it0, wc') ->
  fst (getFieldMap P E qs0 w) = fst (getFieldMap P E qs0 wc) ->
  fst (MapRange E m (snd (getFieldMap P E qs0 w))) =
    fst (MapRange E m (snd (getFieldMap P E qs0 wc))) ->
  exists mm w', Clone P E it0 w = (Ok mm, w') /\ query mm = query it0.
Proof.
  unfold NewIterator. cbn [Direction_eqb].
  destruct (getFieldMap P E qs0 wc) as [fmc w1c].
  destruct (getFieldMap P E qs0 w) as [fm w1] eqn:HF. cbn [fst snd].
  intros Hnew -> Horder.
  destruct (negb (len fmc =? 0)) eqn:Hlen.
  - destruct (MapRange E m w1c) as [entriesc w2c].
    destruct (NextUID E w2c) as [uc w3c]. inversion Hnew; subst it0 wc'.
    unfold Clone, NewIterator. cbn [isAll qs resultType dir hash mkIterator Direction_eqb].
    rewrite HF, Hlen.
    destruct (MapRange E m w1) as [entries w2]. cbn [fst] in Horder. subst entries.
    destruct (NextUID E w2) as [u w3]. do 2 eexists. split; reflexivity.
  - destruct (NextUID E w1c) as [uc w3c]. inversion Hnew; subst it0 wc'.
    unfold Clone, NewIterator. cbn [isAll qs resultType dir hash mkIterator Direction_eqb].
    rewrite HF, Hlen.
    destruct (NextUID E w1) as [u w3]. do 2 eexists. split; reflexivity.
Qed.

(** The constructors leave a well-formed request in a fresh iterator. *)
Lemma NewIterator_requestOk (qs0 : QuadStore) (rt : string) (d : Direction)
    (val : Value) (it : Iterator) (w w' : W) :
  NewIterator P E qs0 rt d val w = (Ok it, w') ->
  (d = QuadMetadata -> exists m, val = VQuadRef m) ->
  requestOk P it /\ fresh it /\ size it = -1 /\ Err it = None.
Proof.
  unfold NewIterator. destruct (Direction_eqb d QuadMetadata) eqn:Hd.
  - apply Direction_eqb_eq in Hd. subst d. intros Hnew Hval.
    destruct (Hval eq_refl) as (m & ->).
    destruct (getFieldMap P E qs0 w) as [fm w1].
    destruct (negb (len fm =? 0)).
    + destruct (MapRange E m w1) as [entries w2].
      destruct (NextUID E w2) as [u w3]. inversion Hnew; subst.
      split; [exists m; reflexivity|]. repeat split.
    + destruct (NextUID E w1) as [u w3]. inversion Hnew; subst.
      split; [exists m; reflexivity|]. repeat split.
  - intros Hnew _. destruct val as [h| | |]; try discriminate.
    destruct (NextUID E w) as [u w1]. inversion Hnew; subst.
    split; [|repeat split].
    unfold requestOk. cbn [isAll dir hash query mkIterator]. rewrite Hd.
    exists h. split; reflexivity.
Qed.

Lemma NewAllIterator_requestOk (qs0 : QuadStore) (rt : string) (w : W) :
  requestOk P (fst (NewAllIterator E qs0 rt w)) /\
  fresh (fst (NewAllIterator E qs0 rt w)).
Proof.
  unfold NewAllIterator. destruct (NextUID E w) as [u w1]. cbn [fst].
  split; [|split; reflexivity]. unfold requestOk. cbn. repeat split.
Qed.

(** What the metadata branch of [NewIterator] returns on a filter map: the
    match-nothing term when the schema lookup comes back empty, and otherwise
    the conjunction the range loop leaves; the uid is drawn last. *)
Lemma NewIterator_metadata_pins (qs0 : QuadStore) (rt : string)
    (mm : list (string * string)) (it : Iterator) (w w' : W) :
  NewIterator P E qs0 rt QuadMetadata (VQuadRef mm) w = (Ok it, w') ->
  (fst (getFieldMap P E qs0 w) = [] ->
     it = mkIterator (fst (NextUID E (snd (getFieldMap P E qs0 w))))
            qs0 QuadMetadata rt nullterm (VQuadRef mm) false /\
     w' = snd (NextUID E (snd (getFieldMap P E qs0 w)))) /\
  (fst (getFieldMap P E qs0 w) <> [] ->
     it = mkIterator
            (fst (NextUID E (snd (MapRange E mm (snd (getFieldMap P E qs0 w))))))
            qs0 QuadMetadata rt
            (BoolFilter
               (metadataFilters P (fst (getFieldMap P E qs0 w)) QuadMetadata
                  (fst (MapRange E mm (snd (getFieldMap P E qs0 w)))) []))
            (VQuadRef mm) false /\
     w' = snd (NextUID E (snd (MapRange E mm (snd (getFieldMap P E qs0 w)))))).
Proof.
  unfold NewIterator. cbn [Direction_eqb].
  destruct (getFieldMap P E qs0 w) as [fm w1]. cbn [fst snd].
  destruct fm as [|e fm].
  - cbn [len List.length Z.of_nat Z.eqb negb].
    destruct (NextUID E w1) as [u w3]. intros H; inversion H; subst.
    split; [intros _; split; reflexivity | intros Hne; now elim Hne].
  - replace (negb (len (e :: fm) =? 0)) with true by reflexivity.
    destruct (MapRange E mm w1) as [entries w2]. cbn [fst snd].
    destruct (NextUID E w2) as [u w3]. intros H; inversion H; subst.
    split; [intros Heq; discriminate | intros _; split; reflexivity].
Qed.

(** [Clone] runs the constructor of the original's kind on the original's
    request, in the world it is called in, and copies the tags. *)
Lemma Clone_rebuilt (it : Iterator) (w : W) :
  requestOk P it ->
  exists u q w',
    Clone P E it w =
      (Ok (set_tags
             (mkIterator u (qs it) (dir it) (resultType it) q (hash it) (isAll it))
             (CopyFrom emptyTagger (tags it))), w') /\
    (isAll it = true ->
       q = TypeQuery (resultType it) /\
       u = fst (NextUID E w) /\ w' = snd (NextUID E w)) /\
    (isAll it = false -> dir it <> QuadMetadata ->
       forall h, hash it = VNodeHash h ->
         q = TermQuery (Direction_String P (dir it)) h /\
         u = fst (NextUID E w) /\ w' = snd (NextUID E w)) /\
    (isAll it = false -> dir it = QuadMetadata ->
       forall mm, hash it = VQuadRef mm ->
         (fst (getFieldMap P E (qs it) w) = [] ->
            q = nullterm /\
            u = fst (NextUID E (snd (getFieldMap P E (qs it) w))) /\
            w' = snd (NextUID E (snd (getFieldMap P E (qs it) w)))) /\
         (fst (getFieldMap P E (qs it) w) <> [] ->
            q = BoolFilter
                  (metadataFilters P (fst (getFieldMap P E (qs it) w)) QuadMetadata
                     (fst (MapRange E mm (snd (getFieldMap P E (qs it) w)))) []) /\
            u = fst (NextUID E (snd (MapRange E mm (snd (getFieldMap P E (qs it) w))))) /\
            w' = snd (NextUID E (snd (MapRange E mm (snd (getFieldMap P E (qs it) w))))))).
Proof.
  unfold requestOk, Clone.
  destruct (isAll it) eqn:Hall.
  - intros (Hdir & Hhash & Hq). unfold NewAllIterator.
    destruct (NextUID E w) as [u w1].
    exists u, (TypeQuery (resultType it)), w1.
    split; [rewrite Hdir, Hhash; reflexivity|].
    split; [intros _; repeat split|].
    split; intros Hf; discriminate.
  - destruct (Direction_eqb (dir it) QuadMetadata) eqn:Hd.
    + intros (m0 & Hhash). apply Direction_eqb_eq in Hd.
      destruct (NewIterator P E (qs it) (resultType it) (dir it) (hash it) w)
        as [[m1|msg] w1] eqn:Hnew; rewrite Hd, Hhash in Hnew.
      * destruct (NewIterator_metadata_pins _ _ _ _ _ _ Hnew) as [Pempty Pfull].
        assert (Hdec : fst (getFieldMap P E (qs it) w) = [] \/
                       fst (getFieldMap P E (qs it) w) <> []).
        { destruct (fst (getFieldMap P E (qs it) w));
            [left; reflexivity | right; discriminate]. }
        destruct Hdec as [Hf|Hf].
        -- destruct (Pempty Hf) as [-> ->].
           do 3 eexists. rewrite Hd, Hhash. split; [reflexivity|].
           split; [intros Ht; discriminate|].
           split; [intros _ Hne; now elim Hne|].
           intros _ _ mm Hmm. inversion Hmm; subst mm.
           split; [intros _; repeat split | intros Hne; contradiction].
        -- destruct (Pfull Hf) as [-> ->].
           do 3 eexists. rewrite Hd, Hhash. split; [reflexivity|].
           split; [intros Ht; discriminate|].
           split; [intros _ Hne; now elim Hne|].
           intros _ _ mm Hmm. inversion Hmm; subst mm.
           split; [intros Heq; contradiction | intros _; repeat split].
      * exfalso. revert Hnew. unfold NewIterator. cbn [Direction_eqb].
        destruct (getFieldMap P E (qs it) w) as [fm w2].
        destruct (negb (len fm =? 0)).
        -- destruct (MapRange E m0 w2) as [entries w3].
           destruct (NextUID E w3); discriminate.
        -- destruct (NextUID E w2); discriminate.
    + intros (h & Hhash & Hq). unfold NewIterator. rewrite Hd, Hhash.
      destruct (NextUID E w) as [u w1].
      exists u, (TermQuery (Direction_String P (dir it)) h), w1.
      split; [reflexivity|].
      split; [intros Ht; discriminate|].
      split.
      * intros _ _ h' Hh'. inversion Hh'; subst h'. repeat split.
      * intros _ Heq. rewrite Heq in Hd. discriminate.
Qed.


End CloneFacts.



(** * Further properties of the source *)

(** ** What a call of [Next] changes *)

Lemma set_same (it : Iterator) :
  set_result (set_resultIndex (set_resultSet it (resultSet it)) (resultIndex it))
    (result it) = it.
Proof. destruct it; reflexivity. Qed.

Lemma storeResult_set_result (it : Iterator) (id : string) :
  storeResult it id =
    set_result it (if String.eqb (resultType it) "quads"
                   then VQuadHash id else VNodeHash id).
Proof. unfold storeResult. destruct (String.eqb (resultType it) "quads"); reflexivity. Qed.

Lemma sliceIndex_Ok {A : Type} (s : list A) (i : Z) (a : A) :
  sliceIndex s i = Ok a -> 0 <= i /\ nth_error s (Z.to_nat i) = Some a.
Proof.
  unfold sliceIndex. destruct (Z.ltb_spec i 0) as [Hneg|Hpos]; [discriminate|].
  destruct (nth_error s (Z.to_nat i)); intros Heq; inversion Heq.
  split; [exact Hpos | reflexivity].
Qed.

Section NextChanges.

Variable P : Pkg.
Variable W : Type.
Variable E : Env W.

(** Whatever [Next] returns, the iterator differs from the one before at most
    in the page, the position and the result. *)
Lemma Next_shape (it it' : Iterator) (b : bool) (w w' : W) :
  Next P E it w = (Ok (b, it'), w') ->
  exists rs i v, it' = set_result (set_resultIndex (set_resultSet it rs) i) v.
Proof.
  set (shape := fun x : Iterator =>
         exists rs i v, x = set_result (set_resultIndex (set_resultSet it rs) i) v).
  assert (Hself : shape it).
  { exists (resultSet it), (resultIndex it), (result it). symmetry. apply set_same. }
  assert (Hres : forall x v, shape x -> shape (set_result x v)).
  { intros x v' (rs & i & v & ->). exists rs, i, v'. reflexivity. }
  assert (Hidx : forall x i, shape x -> shape (set_resultIndex x i)).
  { intros x i' (rs & i & v & ->). exists rs, i', v. reflexivity. }
  assert (Hset : forall x rs, shape x -> shape (set_resultSet x rs)).
  { intros x rs' (rs & i & v & ->). exists rs', i, v. reflexivity. }
  assert (Hpage : forall it0 rs0 w0,
            shape it0 -> NextPage P E it0 rs0 w0 = (Ok (b, it'), w') -> shape it').
  { intros it0 rs0 w0 H0. unfold NextPage.
    destruct (_ <? _).
    - destruct (sliceIndex _ _) as [h|msg]; intros H; inversion H.
      rewrite storeResult_set_result. apply Hres, Hidx, H0.
    - destruct (ScrollNext E _ _ _ w0) as [[e|r] w1].
      + intros H; inversion H; subst. exact H0.
      + destruct (_ =? 0); [intros H; inversion H; subst; exact H0|].
        destruct (sliceIndex _ _) as [h|msg]; intros H; inversion H.
        rewrite storeResult_set_result. apply Hres, Hidx, Hset, H0. }
  unfold Next. destruct (resultSet it) as [rs|] eqn:Hrs.
  - apply Hpage, Hself.
  - destruct (makeElasticResultSet P E it w) as [[e|r] w1].
    + intros H; inversion H; subst. exact Hself.
    + apply Hpage, Hset, Hself.
Qed.

(** X1. [Next] writes the page, the position and the result, and nothing else:
    the request fields, the tags, the cached size and the sticky error are
    as before the call. *)
Theorem Next_frame (it it' : Iterator) (b : bool) (w w' : W) :
  Next P E it w = (Ok (b, it'), w') ->
  sameRequest it' it /\ tags it' = tags it /\ size it' = size it /\
  Err it' = Err it.
Proof.
  intros H. destruct (Next_shape it it' b w w' H) as (rs & i & v & ->).
  unfold sameRequest, Err. cbn. repeat split.
Qed.

(** X2. A call that returns true leaves the iterator on a page, one place past a
    hit of that page, and [Result] is that hit's identifier: a quad
    identifier when the result type is "quads", a node identifier
    otherwise. *)
Theorem Next_true_result (it it' : Iterator) (w w' : W) :
  Next P E it w = (Ok (true, it'), w') ->
  exists rs h,
    resultSet it' = Some rs /\
    1 <= resultIndex it' <= len (HitsHits (Hits rs)) /\
    nth_error (HitsHits (Hits rs)) (Z.to_nat (resultIndex it' - 1)) = Some h /\
    Result it' = hitValue (resultType it) h.
Proof.
  assert (Hpage : forall it0 rs0 w0,
            resultSet it0 = Some rs0 -> resultType it0 = resultType it ->
            NextPage P E it0 rs0 w0 = (Ok (true, it'), w') ->
            exists rs h,
              resultSet it' = Some rs /\
              1 <= resultIndex it' <= len (HitsHits (Hits rs)) /\
              nth_error (HitsHits (Hits rs)) (Z.to_nat (resultIndex it' - 1)) = Some h /\
              Result it' = hitValue (resultType it) h).
  { intros it0 rs0 w0 Hrs Hrt. unfold NextPage.
    destruct (Z.ltb_spec (resultIndex it0) (len (HitsHits (Hits rs0)))) as [Hlt|Hge].
    - destruct (sliceIndex _ _) as [h|msg] eqn:Hs; intros H; inversion H.
      apply sliceIndex_Ok in Hs as [Hpos Hnth].
      exists rs0, h.
      destruct (storeResult_fields (set_resultIndex it0 (resultIndex it0 + 1)) (Id h))
        as (_ & _ & _ & _ & -> & -> & _).
      rewrite storeResult_Result. cbn. rewrite Hrt.
      replace (resultIndex it0 + 1 - 1) with (resultIndex it0) by lia.
      repeat split; try assumption; lia.
    - destruct (ScrollNext E _ _ _ w0) as [[e|r] w1]; [intros H; inversion H|].
      destruct (_ =? 0); [intros H; inversion H|].
      destruct (sliceIndex _ _) as [h|msg] eqn:Hs; intros H; inversion H.
      apply sliceIndex_Ok in Hs as [_ Hnth]. cbn in Hnth.
      exists r, h.
      destruct (storeResult_fields
                  (set_resultIndex (set_resultSet it0 (Some r)) 1) (Id h))
        as (_ & _ & _ & _ & -> & -> & _).
      rewrite storeResult_Result. cbn. rewrite Hrt.
      destruct (HitsHits (Hits r)) as [|h0 hs]; [discriminate|].
      unfold len. cbn [List.length]. repeat split; try assumption; lia. }
  unfold Next. destruct (resultSet it) as [rs|] eqn:Hrs.
  - apply Hpage; [exact Hrs | reflexivity].
  - destruct (makeElasticResultSet P E it w) as [[e|r] w1];
      [intros H; inversion H|].
    apply Hpage; reflexivity.
Qed.

(** X3. A call that returns false moves nothing: position and result are as
    before, and the iterator is unchanged unless this very call fetched its
    first page, which it then keeps. *)
Theorem Next_false_keeps (it it' : Iterator) (w w' : W) :
  Next P E it w = (Ok (false, it'), w') ->
  Result it' = Result it /\ resultIndex it' = resultIndex it /\
  (it' = it \/
   resultSet it = None /\ exists r, it' = set_resultSet it (Some r)).
Proof.
  unfold Next. destruct (resultSet it) as [rs|] eqn:Hrs.
  - intros H. apply NextPage_false in H as [-> _].
    repeat split. left. reflexivity.
  - destruct (makeElasticResultSet P E it w) as [[e|r] w1].
    + intros H; inversion H; subst. repeat split. left. reflexivity.
    + intros H. apply NextPage_false in H as [-> _].
      repeat split. right. split; [reflexivity|]. exists r. reflexivity.
Qed.

(** X4. Inside the page [Next] is served from the buffer: it returns the hit at
    the position without panicking and without a request to the backend. *)
Theorem Next_inside_page (it : Iterator) (rs : SearchResult) (w : W) :
  resultSet it = Some rs ->
  0 <= resultIndex it < len (HitsHits (Hits rs)) ->
  exists h,
    nth_error (HitsHits (Hits rs)) (Z.to_nat (resultIndex it)) = Some h /\
    Next P E it w =
      (Ok (true, storeResult (set_resultIndex it (resultIndex it + 1)) (Id h)), w).
Proof.
  intros Hrs [Hlo Hhi]. unfold len in Hhi.
  destruct (nth_error (HitsHits (Hits rs)) (Z.to_nat (resultIndex it))) as [h|] eqn:Hnth.
  - exists h. split; [reflexivity|].
    rewrite (Next_in_page P W E it rs (Z.to_nat (resultIndex it)) h w Hrs Hnth)
      by (rewrite Z2Nat.id; [reflexivity | exact Hlo]).
    rewrite Z2Nat.id by exact Hlo. reflexivity.
  - apply nth_error_None in Hnth. lia.
Qed.

End NextChanges.

Lemma Next_frame_witness :
  exists it' w',
    Next testPkg scripted subjectIterator
      (script ([], None) [ScrollOk (page 1 ["q1"] "s1")] []) = (Ok (true, it'), w') /\
    sameRequest it' subjectIterator /\ size it' = -1 /\ Err it' = None.
Proof.
  do 2 eexists. split; [reflexivity|].
  destruct (Next_frame testPkg Script scripted subjectIterator _ true
              (script ([], None) [ScrollOk (page 1 ["q1"] "s1")] []) _ eq_refl)
    as (Hreq & _ & Hsize & Herr).
  split; [exact Hreq|]. split; [exact Hsize | exact Herr].
Defined.

Lemma Next_true_result_witness :
  exists it' w' rs h,
    Next testPkg scripted subjectIterator
      (script ([], None) [ScrollOk (page 1 ["q1"] "s1")] []) = (Ok (true, it'), w') /\
    resultSet it' = Some rs /\
    nth_error (HitsHits (Hits rs)) (Z.to_nat (resultIndex it' - 1)) = Some h /\
    Result it' = hitValue "quads" h.
Proof.
  do 2 eexists.
  destruct (Next_true_result testPkg Script scripted subjectIterator _
              (script ([], None) [ScrollOk (page 1 ["q1"] "s1")] []) _ eq_refl)
    as (rs & h & Hrs & _ & Hnth & Hres).
  exists rs, h. split; [reflexivity|]. split; [exact Hrs|].
  split; [exact Hnth | exact Hres].
Defined.

Lemma Next_false_keeps_witness :
  exists it' w',
    Next testPkg scripted subjectIterator
      (script ([], None) [ScrollOk (page 0 [] "s1")] []) = (Ok (false, it'), w') /\
    Result it' = VOther /\ resultIndex it' = 0.
Proof.
  do 2 eexists. split; [reflexivity|].
  destruct (Next_false_keeps testPkg Script scripted subjectIterator _
              (script ([], None) [ScrollOk (page 0 [] "s1")] []) _ eq_refl)
    as (Hres & Hix & _).
  split; [exact Hres | exact Hix].
Defined.

Lemma Next_inside_page_witness :
  exists h,
    Next testPkg scripted
      (set_resultSet subjectIterator (Some (page 2 ["q1"; "q2"] "s1")))
      (script ([], None) [] []) =
    (Ok (true,
         storeResult
           (set_resultIndex
              (set_resultSet subjectIterator (Some (page 2 ["q1"; "q2"] "s1"))) 1)
           (Id h)),
     script ([], None) [] []).
Proof.
  destruct (Next_inside_page testPkg Script scripted
              (set_resultSet subjectIterator (Some (page 2 ["q1"; "q2"] "s1")))
              (page 2 ["q1"; "q2"] "s1") (script ([], None) [] []) eq_refl)
    as (h & _ & HN).
  - cbn. lia.
  - exists h. exact HN.
Defined.

(** ** Over the lifetime of an iterator *)

Section Lifetime.

Variable P : Pkg.
Variable W : Type.
Variable E : Env W.

Lemma Contains_shape (it it' : Iterator) (v : Value) (b : bool) :
  Contains P it v = Ok (b, it') ->
  (it' = it /\ b = false) \/ (it' = set_result it v /\ b = true).
Proof.
  unfold Contains. destruct (isAll it).
  - intros H; inversion H. right. split; reflexivity.
  - destruct v as [h|q|m|]; try discriminate.
    destruct (_ || _); intros H; inversion H;
      [right | left]; split; reflexivity.
Qed.

Lemma Size_shape (it it' : Iterator) (r : Z * bool) (w w' : W) :
  Size E it w = (r, it', w') ->
  it' = it \/
  (size it = -1 /\
   (it' = set_size it (fst r) \/
    exists e, it' = set_err (set_size it (fst r)) (Some e))).
Proof.
  unfold Size. destruct (Z.eqb_spec (size it) (-1)) as [Hs|Hs].
  - destruct (getSize E (qs it) (resultType it) (query it) w) as [[n [e|]] w1];
      intros H; inversion H; subst; right; (split; [exact Hs|]).
    + right. exists e. reflexivity.
    + left. reflexivity.
  - intros H; inversion H. left. reflexivity.
Qed.

Lemma Stats_Size_eq (it it' : Iterator) (r : IteratorStats) (w w' : W) :
  Stats E it w = (r, it', w') ->
  Size E it w = ((Stats_Size r, ExactSize r), it', w') /\
  ContainsCost r = 1 /\ NextCost r = 5.
Proof.
  unfold Stats. destruct (Size E it w) as [[[n ex] it1] w1].
  intros H; inversion H; subst. cbn. repeat split.
Qed.

Lemma Step_sameRequest (it it' : Iterator) :
  Step P E it it' -> sameRequest it' it.
Proof.
  assert (Hsize : forall r w w', Size E it w = (r, it', w') -> sameRequest it' it).
  { intros r w w' H. apply Size_shape in H as [-> | (_ & [-> | (e & ->)])];
      unfold sameRequest; cbn; repeat split. }
  intros HS. inversion HS as [? ? b w w' H | ? ? v b H | ? ? r w w' H
                             | ? ? r w w' H | ? | ? t]; subst.
  - destruct (Next_shape P W E it it' b w w' H) as (rs & i & v0 & ->).
    unfold sameRequest; cbn; repeat split.
  - apply Contains_shape in H as [[-> _] | [-> _]]; unfold sameRequest; cbn; repeat split.
  - apply (Hsize r w w' H).
  - apply Stats_Size_eq in H as [H _]. apply (Hsize _ w w' H).
  - unfold sameRequest; cbn; repeat split.
  - unfold sameRequest; cbn; repeat split.
Qed.

Lemma Step_indexInRange (it it' : Iterator) :
  Step P E it it' -> indexInRange it -> indexInRange it'.
Proof.
  assert (Hsize : forall r w w', Size E it w = (r, it', w') ->
                                 indexInRange it -> indexInRange it').
  { intros r w w' H Hin. apply Size_shape in H as [-> | (_ & [-> | (e & ->)])];
      exact Hin. }
  intros HS Hin. inversion HS as [? ? b w w' H | ? ? v b H | ? ? r w w' H
                                 | ? ? r w w' H | ? | ? t]; subst.
  - apply (Next_indexInRange P W E it it' b w w' Hin H).
  - apply Contains_shape in H as [[-> _] | [-> _]]; exact Hin.
  - apply (Hsize r w w' H Hin).
  - apply Stats_Size_eq in H as [H _]. apply (Hsize _ w w' H Hin).
  - reflexivity.
  - exact Hin.
Qed.

Lemma Step_Err (it it' : Iterator) :
  Step P E it it' -> Err it <> None -> Err it' <> None.
Proof.
  assert (Hsize : forall r w w', Size E it w = (r, it', w') ->
                                 Err it <> None -> Err it' <> None).
  { intros r w w' H Herr. apply Size_shape in H as [-> | (_ & [-> | (e & ->)])];
      [exact Herr | exact Herr | discriminate]. }
  intros HS Herr. inversion HS as [? ? b w w' H | ? ? v b H | ? ? r w w' H
                                  | ? ? r w w' H | ? | ? t]; subst.
  - destruct (Next_shape P W E it it' b w w' H) as (rs & i & v0 & ->). exact Herr.
  - apply Contains_shape in H as [[-> _] | [-> _]]; exact Herr.
  - apply (Hsize r w w' H Herr).
  - apply Stats_Size_eq in H as [H _]. apply (Hsize _ w w' H Herr).
  - exact Herr.
  - exact Herr.
Qed.

Lemma Step_size (it it' : Iterator) :
  Step P E it it' -> size it <> -1 -> size it' = size it.
Proof.
  assert (Hsize : forall r w w', Size E it w = (r, it', w') ->
                                 size it <> -1 -> size it' = size it).
  { intros r w w' H Hs. apply Size_shape in H as [-> | (Hm & _)];
      [reflexivity | contradiction]. }
  intros HS Hs. inversion HS as [? ? b w w' H | ? ? v b H | ? ? r w w' H
                                | ? ? r w w' H | ? | ? t]; subst.
  - destruct (Next_shape P W E it it' b w w' H) as (rs & i & v0 & ->). reflexivity.
  - apply Contains_shape in H as [[-> _] | [-> _]]; reflexivity.
  - apply (Hsize r w w' H Hs).
  - apply Stats_Size_eq in H as [H _]. apply (Hsize _ w w' H Hs).
  - reflexivity.
  - reflexivity.
Qed.

Lemma sameRequest_trans (a b c : Iterator) :
  sameRequest a b -> sameRequest b c -> sameRequest a c.
Proof. unfold sameRequest. intuition congruence. Qed.

(** X6. The request is fixed for the lifetime of an iterator: no sequence of
    [Next], [Contains], [Size], [Stats], [Reset] and tag writes changes its
    uid, store, direction, target, kind, result type or predicate. *)
Theorem Steps_request_fixed (it it' : Iterator) :
  Steps P E it it' -> sameRequest it' it.
Proof.
  induction 1 as [it0 | a b c _ IH Hstep].
  - unfold sameRequest. repeat split.
  - apply (sameRequest_trans c b a); [apply Step_sameRequest, Hstep | exact IH].
Qed.

(** X7. The error is sticky: once [Err] is not nil, it is not nil after any
    further operations. *)
Theorem Steps_sticky_error (it it' : Iterator) :
  Steps P E it it' -> Err it <> None -> Err it' <> None.
Proof.
  induction 1 as [it0 | a b c _ IH Hstep]; intros Herr; [exact Herr|].
  apply (Step_Err b c Hstep), IH, Herr.
Qed.

(** X8. A computed size stays: once the size differs from -1, no later
    operation, [Reset] included, changes it, and [Size] keeps returning
    it. *)
Theorem Steps_size_stable (it it' : Iterator) :
  Steps P E it it' -> size it <> -1 ->
  size it' = size it /\
  forall w, Size E it' w = ((size it, true), it', w).
Proof.
  intros HS Hs.
  assert (Heq : size it' = size it).
  { induction HS as [it0 | a b c _ IH Hstep]; [reflexivity|].
    rewrite (Step_size b c Hstep); [apply IH, Hs|]. rewrite (IH Hs). exact Hs. }
  split; [exact Heq|]. intros w. unfold Size. rewrite Heq.
  destruct (Z.eqb_spec (size it) (-1)); [contradiction | reflexivity].
Qed.

Lemma wellBuilt_transfer (a b : Iterator) :
  sameRequest b a -> indexInRange b -> wellBuilt P a -> wellBuilt P b.
Proof.
  unfold sameRequest, wellBuilt.
  intros (_ & _ & Hd & Hh & Ha & Hrt & Hq & Hs & Ht) Hin (_ & Hs0 & Ht0 & Hshape).
  rewrite Hd, Hh, Ha, Hrt, Hq, Hs, Ht. repeat split; assumption.
Qed.

Lemma NewIterator_wellBuilt (qs0 : QuadStore) (rt : string) (d : Direction)
    (val : Value) (it : Iterator) (w w' : W) :
  NewIterator P E qs0 rt d val w = (Ok it, w') -> wellBuilt P it.
Proof.
  unfold NewIterator. destruct (Direction_eqb d QuadMetadata) eqn:Hd.
  - destruct (getFieldMap P E qs0 w) as [fm w1].
    destruct (negb (len fm =? 0)).
    + destruct val as [h|q|m|]; try discriminate.
      destruct (MapRange E m w1) as [entries w2].
      destruct (NextUID E w2) as [u w3]. intros H; inversion H; subst.
      unfold wellBuilt. cbn. rewrite Hd. repeat split. right. eexists. reflexivity.
    + destruct (NextUID E w1) as [u w3]. intros H; inversion H; subst.
      unfold wellBuilt. cbn. rewrite Hd. repeat split. left. reflexivity.
  - destruct val as [h|q|m|]; try discriminate.
    destruct (NextUID E w) as [u w1]. intros H; inversion H; subst.
    unfold wellBuilt. cbn. rewrite Hd. repeat split. exists h. split; reflexivity.
Qed.

Lemma NewAllIterator_wellBuilt (qs0 : QuadStore) (rt : string) (w : W) :
  wellBuilt P (fst (NewAllIterator E qs0 rt w)).
Proof.
  unfold NewAllIterator. destruct (NextUID E w) as [u w1].
  unfold wellBuilt. cbn. repeat split.
Qed.

Lemma Clone_wellBuilt (it m : Iterator) (w w' : W) :
  Clone P E it w = (Ok m, w') -> wellBuilt P m.
Proof.
  unfold Clone. destruct (isAll it).
  - pose proof (NewAllIterator_wellBuilt (qs it) (resultType it) w) as Hwb.
    destruct (NewAllIterator E (qs it) (resultType it) w) as [m0 w1].
    intros H; inversion H; subst. cbn [fst] in Hwb.
    apply (wellBuilt_transfer m0); [unfold sameRequest; cbn; repeat split | | exact Hwb].
    destruct Hwb as (Hin & _). exact Hin.
  - destruct (NewIterator P E (qs it) (resultType it) (dir it) (hash it) w)
      as [[m0|msg] w1] eqn:Hnew; intros H; inversion H; subst.
    pose proof (NewIterator_wellBuilt _ _ _ _ _ _ _ Hnew) as Hwb.
    apply (wellBuilt_transfer m0); [unfold sameRequest; cbn; repeat split | | exact Hwb].
    destruct Hwb as (Hin & _). exact Hin.
Qed.

Lemma Reachable_inv (it : Iterator) :
  Reachable P E it -> wellBuilt P it.
Proof.
  induction 1 as [qs0 rt d val w w' it H | qs0 rt w | it m w w' _ _ H
                 | it it' _ IH Hstep].
  - apply (NewIterator_wellBuilt _ _ _ _ _ _ _ H).
  - apply NewAllIterator_wellBuilt.
  - apply (Clone_wellBuilt _ _ _ _ H).
  - apply (wellBuilt_transfer it).
    + apply Step_sameRequest, Hstep.
    + apply (Step_indexInRange it it' Hstep). destruct IH as (Hin & _). exact Hin.
    + exact IH.
Qed.

(** X9. Every iterator a program can hold is well built: its position lies
    within its page (0 without a page), the struct fields [scrollId] and
    [types] are still empty, an "all" iterator has direction [Any], the
    empty node target and the type predicate, an exact-match iterator has a
    node target and the term predicate on its direction, and a metadata
    iterator has the match-nothing term or a filter conjunction.  So an
    "all" or exact-match iterator always carries the request [Clone] needs. *)
Theorem Reachable_wellBuilt (it : Iterator) :
  Reachable P E it ->
  wellBuilt P it /\
  (isAll it = true \/ dir it <> QuadMetadata -> requestOk P it).
Proof.
  intros Hreach. pose proof (Reachable_inv it Hreach) as Hwb.
  split; [exact Hwb|]. intros Hkind.
  destruct Hwb as (_ & _ & _ & Hshape).
  unfold requestOk. destruct (isAll it); [exact Hshape|].
  destruct (Direction_eqb (dir it) QuadMetadata) eqn:Hd; [|exact Hshape].
  apply Direction_eqb_eq in Hd.
  destruct Hkind as [Hall | Hdir]; [discriminate | contradiction].
Qed.

(** ** Operations that leave the cursor alone *)

(** X10. A membership test does not disturb the iteration: whatever it answers,
    the following calls of [Next] go as they would have gone without it. *)
Theorem Contains_keeps_cursor (it it' : Iterator) (v : Value) (b : bool) :
  Contains P it v = Ok (b, it') ->
  forall n w, advances P E n it' w = advances P E n it w.
Proof.
  intros H n w. apply advances_sameCursor.
  apply Contains_shape in H as [[-> _] | [-> _]];
    unfold sameCursor; cbn; repeat split.
Qed.

Lemma Size_returns (it it' : Iterator) (r : Z * bool) (w w' : W) :
  Size E it w = (r, it', w') -> snd r = true /\ size it' = fst r.
Proof.
  unfold Size. destruct (size it =? -1).
  - destruct (getSize E (qs it) (resultType it) (query it) w) as [[n [e|]] w1];
      intros H; inversion H; subst; split; reflexivity.
  - intros H; inversion H; subst; split; reflexivity.
Qed.

Lemma Size_sameCursor (it it' : Iterator) (r : Z * bool) (w w' : W) :
  Size E it w = (r, it', w') -> sameCursor it' it.
Proof.
  intros H. apply Size_shape in H as [-> | (_ & [-> | (e & ->)])];
    unfold sameCursor; cbn; repeat split.
Qed.

(** X11. Neither does [Size], whether it answers from the cache or asks the
    backend and records a failure. *)
Theorem Size_keeps_cursor (it it' : Iterator) (r : Z * bool) (w w' : W) :
  Size E it w = (r, it', w') ->
  snd r = true /\ size it' = fst r /\
  forall n w0, advances P E n it' w0 = advances P E n it w0.
Proof.
  intros H. destruct (Size_returns it it' r w w' H) as [Hex Hsz].
  split; [exact Hex|]. split; [exact Hsz|].
  intros n w0. apply advances_sameCursor, (Size_sameCursor it it' r w w' H).
Qed.

(** X12. [Stats] reports the fixed costs 1 and 5 and the size [Size] returns, as
    an exact size, caches it as [Size] does, and leaves the cursor alone. *)
Theorem Stats_reports_Size (it it' : Iterator) (r : IteratorStats) (w w' : W) :
  Stats E it w = (r, it', w') ->
  Size E it w = ((Stats_Size r, true), it', w') /\
  ContainsCost r = 1 /\ NextCost r = 5 /\ ExactSize r = true /\
  size it' = Stats_Size r /\
  forall n w0, advances P E n it' w0 = advances P E n it w0.
Proof.
  intros H. apply Stats_Size_eq in H as (HS & Hc & Hn).
  destruct (Size_returns it it' _ w w' HS) as (Hex & Hsz).
  cbn [fst snd] in Hex, Hsz. rewrite Hex in HS |- *.
  split; [exact HS|]. split; [exact Hc|]. split; [exact Hn|].
  split; [reflexivity|]. split; [exact Hsz|].
  intros n w0. apply advances_sameCursor, (Size_sameCursor it it' _ w w' HS).
Qed.

(** ** Starting over *)

(** X13. [Reset] rewinds: from whatever state, after [Reset] the iterator walks a
    backend that serves the [n] hits in pages of [k] from the first hit to
    the last and then returns false, as a new iterator would. *)
Theorem Reset_restarts (it : Iterator) (w : W) (hits : list SearchHit) (k : nat) :
  (1 <= k <= List.length hits)%nat ->
  Serves P E (Reset it) (len hits) (pagesOf k hits) w ->
  advances P E (S (List.length hits)) (Reset it) w =
    map (yielded (resultType it)) hits ++ [Ok None].
Proof.
  intros [Hk Hn] Hserve.
  assert (Htot : len hits <> 0) by (unfold len; lia).
  assert (Hfresh : fresh (Reset it)) by (split; reflexivity).
  pose proof (advances_served P W E (len hits) (pagesOf k hits) (Reset it) w Htot
                (pagesFuel_nonempty _ k Hk hits) Hfresh Hserve) as H.
  rewrite (pagesOf_concat k hits Hk), Nat.add_1_r in H. exact H.
Qed.

(** X14. A clone of an "all" or exact-match iterator, taken at any point of the
    original's life, never fails and iterates as the original does after
    [Reset]. *)
Theorem Clone_as_Reset (it : Iterator) (w : W) :
  Reachable P E it ->
  isAll it = true \/ dir it <> QuadMetadata ->
  exists m w',
    Clone P E it w = (Ok m, w') /\
    forall n w0, advances P E n m w0 = advances P E n (Reset it) w0.
Proof.
  intros Hreach Hkind.
  assert (Hreq : requestOk P it).
  { destruct (Reachable_inv it Hreach) as (_ & _ & _ & Hshape).
    unfold requestOk. destruct (isAll it); [exact Hshape|].
    destruct (Direction_eqb (dir it) QuadMetadata) eqn:Hd; [|exact Hshape].
    apply Direction_eqb_eq in Hd. destruct Hkind as [Hall | Hdir];
      [discriminate | contradiction]. }
  destruct (Clone_built P W E it w Hreq) as (u & q & w' & Hclone & Hq).
  do 2 eexists. split; [exact Hclone|].
  intros n w0. apply advances_sameCursor.
  unfold sameCursor. cbn. rewrite (Hq Hkind). repeat split.
Qed.

End Lifetime.

(** ** Reads stay inside the page *)

Lemma sliceIndex_in_range {A : Type} (s : list A) (i : Z) :
  0 <= i < len s -> exists a, sliceIndex s i = Ok a.
Proof.
  intros [Hlo Hhi]. unfold sliceIndex, len in *.
  destruct (Z.ltb_spec i 0) as [Hneg|_]; [lia|].
  destruct (nth_error s (Z.to_nat i)) as [a|] eqn:Hnth; [exists a; reflexivity|].
  apply nth_error_None in Hnth. lia.
Qed.

Section Bounds.

Variable P : Pkg.
Variable W : Type.
Variable E : Env W.

Hypothesis contract : clientContract E.

Lemma NextPage_returns (it : Iterator) (rs : SearchResult) (w : W) :
  0 <= resultIndex it ->
  exists b it' w', NextPage P E it rs w = (Ok (b, it'), w').
Proof.
  intros Hlo. unfold NextPage.
  destruct (Z.ltb_spec (resultIndex it) (len (HitsHits (Hits rs)))) as [Hlt|Hge].
  - destruct (sliceIndex_in_range (HitsHits (Hits rs)) (resultIndex it) (conj Hlo Hlt))
      as (h & ->).
    do 3 eexists. reflexivity.
  - destruct (ScrollNext E (qs it) (indexName P) (ScrollId rs) w) as [[e|r] w1] eqn:Hnext.
    + do 3 eexists. reflexivity.
    + destruct (TotalHits (Hits r) =? 0); [do 3 eexists; reflexivity|].
      destruct contract as [_ Hcont].
      pose proof (Hcont _ _ _ _ _ _ Hnext) as Hhits.
      destruct (HitsHits (Hits r)) as [|h hs]; [contradiction|].
      cbn [sliceIndex Z.ltb Z.compare Z.to_nat nth_error].
      do 3 eexists. reflexivity.
Qed.

(** With its position inside its page, an iterator's [Next] returns: neither
    the read at the position nor the read of element 0 of a re-queried page
    falls outside the hit list. *)
Lemma Next_returns (it : Iterator) (w : W) :
  indexInRange it ->
  exists b it' w', Next P E it w = (Ok (b, it'), w').
Proof.
  unfold indexInRange, Next. destruct (resultSet it) as [rs|].
  - intros [Hlo _]. apply NextPage_returns, Hlo.
  - intros Hix. destruct (makeElasticResultSet P E it w) as [[e|r] w1].
    + do 3 eexists. reflexivity.
    + apply NextPage_returns. cbn. rewrite Hix. apply Z.le_refl.
Qed.

(** C3. Over a search client that keeps its contract, every iterator a
    program can hold (built by a constructor or by [Clone], then taken
    through any returning calls of [Next], [Contains], [Size], [Stats],
    [Reset] and tag writes) has its position within [0, len(hits)] of the
    page it holds (0 when it holds none), and a call of [Next] on it, in
    whatever state the backend is, returns: it never reads a hit outside the
    page, a read outside the hit list being the panic of [sliceIndex], and
    the element 0 it reads from a re-queried page exists.  The position is
    within the page again after the call. *)
Theorem Next_never_out_of_range (it : Iterator) :
  Reachable P E it ->
  indexInRange it /\
  forall w, exists b it' w',
    Next P E it w = (Ok (b, it'), w') /\ indexInRange it'.
Proof.
  intros Hreach.
  destruct (Reachable_inv P W E it Hreach) as (Hin & _).
  split; [exact Hin|]. intros w.
  destruct (Next_returns it w Hin) as (b & it' & w' & HN).
  exists b, it', w'. split; [exact HN|].
  apply (Next_indexInRange P W E it it' b w w' Hin HN).
Qed.

End Bounds.

Lemma scriptedClient_contract : clientContract scriptedClient.
Proof.
  assert (H : forall w r w', clientScroll w = (ScrollOk r, w') -> HitsHits (Hits r) <> []).
  { intros w r w'. unfold clientScroll.
    destruct (popScroll w) as [[e|r0] w0]; [discriminate|].
    destruct (HitsHits (Hits r0)) as [|h hs] eqn:Hh; [discriminate|].
    intros Heq; inversion Heq; subst. rewrite Hh. discriminate. }
  split.
  - intros qs0 index typ q w r w'. apply H.
  - intros qs0 index sid w r w'. apply H.
Qed.

Lemma Next_never_out_of_range_witness :
  exists b it' w',
    Next testPkg scriptedClient
      (storeResult
         (set_resultIndex (set_resultSet subjectIterator (Some (page 1 ["q1"] "s1")))
            (0 + 1)) "q1")
      (script ([], None) [ScrollOk (page 1 [] "s1")] []) = (Ok (b, it'), w') /\
    indexInRange it'.
Proof.
  apply (Next_never_out_of_range testPkg Script scriptedClient scriptedClient_contract).
  apply (reach_Step _ _ subjectIterator).
  - apply (reach_NewIterator _ _ theStore "quads" Subject (VNodeHash "a")
             (script ([], None) [] []) (snd (NextUID scripted (script ([], None) [] [])))).
    reflexivity.
  - apply (step_Next _ _ _ _ true
             (script ([], None) [ScrollOk (page 1 ["q1"] "s1")] [])
             (script ([], None) [] [])).
    reflexivity.
Defined.

Lemma Steps_request_fixed_witness :
  sameRequest (Reset (set_size subjectIterator 3)) subjectIterator.
Proof.
  apply (Steps_request_fixed testPkg Script scripted).
  apply (steps_step _ _ _ (set_size subjectIterator 3)).
  - apply (steps_step _ _ _ subjectIterator); [apply steps_refl|].
    apply (step_Size _ _ _ _ (3, true) (script ([], None) [] [(3, None)])
             (script ([], None) [] [])).
    reflexivity.
  - apply step_Reset.
Defined.

Lemma Steps_sticky_error_witness :
  Err (Reset (set_err subjectIterator (Some "count failed"))) <> None.
Proof.
  apply (Steps_sticky_error testPkg Script scripted
           (set_err subjectIterator (Some "count failed"))).
  - apply (steps_step _ _ _ (set_err subjectIterator (Some "count failed")));
      [apply steps_refl | apply step_Reset].
  - discriminate.
Defined.

Lemma Steps_size_stable_witness :
  Size scripted (Reset (set_size subjectIterator 3))
    (script ([], None) [] [(7, None)]) =
  ((3, true), Reset (set_size subjectIterator 3), script ([], None) [] [(7, None)]).
Proof.
  apply (Steps_size_stable testPkg Script scripted (set_size subjectIterator 3)).
  - apply (steps_step _ _ _ (set_size subjectIterator 3));
      [apply steps_refl | apply step_Reset].
  - discriminate.
Defined.

Lemma Reachable_wellBuilt_witness :
  wellBuilt testPkg
    (fst (NewAllIterator scripted theStore "nodes" (script ([], None) [] []))).
Proof.
  apply (Reachable_wellBuilt testPkg Script scripted).
  apply reach_NewAllIterator.
Defined.

Lemma Contains_keeps_cursor_witness :
  advances testPkg scripted 2 (set_result subjectIterator (VQuadHash "abcd"))
    (script ([], None) [ScrollOk (page 1 ["q1"] "s1")] []) =
  advances testPkg scripted 2 subjectIterator
    (script ([], None) [ScrollOk (page 1 ["q1"] "s1")] []).
Proof.
  apply (Contains_keeps_cursor testPkg Script scripted subjectIterator _
           (VQuadHash "abcd") true).
  reflexivity.
Defined.

Lemma Size_keeps_cursor_witness :
  advances testPkg scripted 2 (set_size subjectIterator 3)
    (script ([], None) [ScrollOk (page 1 ["q1"] "s1")] []) =
  advances testPkg scripted 2 subjectIterator
    (script ([], None) [ScrollOk (page 1 ["q1"] "s1")] []).
Proof.
  apply (Size_keeps_cursor testPkg Script scripted subjectIterator
           (set_size subjectIterator 3) (3, true)
           (script ([], None) [] [(3, None)]) (script ([], None) [] [])).
  reflexivity.
Defined.

Lemma Stats_reports_Size_witness :
  exists r it' w',
    Stats scripted subjectIterator (script ([], None) [] [(3, None)]) = (r, it', w') /\
    Stats_Size r = 3 /\ ContainsCost r = 1 /\ NextCost r = 5 /\ size it' = Stats_Size r.
Proof.
  do 3 eexists. split; [reflexivity|].
  destruct (Stats_reports_Size testPkg Script scripted subjectIterator _ _
              (script ([], None) [] [(3, None)]) _ eq_refl)
    as (_ & Hc & Hn & _ & Hsz & _).
  split; [reflexivity|]. split; [exact Hc|]. split; [exact Hn | exact Hsz].
Defined.

Lemma Reset_restarts_witness :
  advances testPkg scripted 3
    (Reset (set_resultIndex
              (set_resultSet subjectIterator (Some (page 2 ["q1"; "q2"] "s1"))) 2))
    (script ([], None) [ScrollOk (page 2 ["q1"; "q2"] "s1")] []) =
  [Ok (Some (VQuadHash "q1")); Ok (Some (VQuadHash "q2")); Ok None].
Proof.
  apply (Reset_restarts testPkg Script scripted
           (set_resultIndex
              (set_resultSet subjectIterator (Some (page 2 ["q1"; "q2"] "s1"))) 2)
           (script ([], None) [ScrollOk (page 2 ["q1"; "q2"] "s1")] [])
           [hit "q1"; hit "q2"] 2).
  - cbn. lia.
  - served.
Defined.

Lemma Clone_as_Reset_witness :
  exists m w',
    Clone testPkg scripted
      (fst (NewAllIterator scripted theStore "nodes" (script ([], None) [] [])))
      (script ([], None) [] []) = (Ok m, w') /\
    advances testPkg scripted 2 m
      (script ([], None) [ScrollOk (page 1 ["n1"] "s1")] []) =
    advances testPkg scripted 2
      (Reset (fst (NewAllIterator scripted theStore "nodes" (script ([], None) [] []))))
      (script ([], None) [ScrollOk (page 1 ["n1"] "s1")] []).
Proof.
  destruct (Clone_as_Reset testPkg Script scripted
              (fst (NewAllIterator scripted theStore "nodes" (script ([], None) [] [])))
              (script ([], None) [] []))
    as (m & w' & Hclone & Hadv).
  - apply reach_NewAllIterator.
  - left. reflexivity.
  - exists m, w'. split; [exact Hclone | apply Hadv].
Defined.

(** ** Construction *)

Lemma forallb_map_compose {A B : Type} (f : B -> bool) (g : A -> B) (l : list A) :
  forallb f (map g l) = forallb (fun a => f (g a)) l.
Proof. induction l as [|a l IH]; [reflexivity|]. cbn. now rewrite IH. Qed.

Section Construction.

Variable P : Pkg.
Variable W : Type.
Variable E : Env W.

(** X16. [NewIterator] returns exactly on an exact-match request with a node
    target and on a metadata request whose target is a filter map or whose
    schema lookup comes back empty; every other call panics on a type
    assertion.  The target of a metadata request is not looked at when the
    schema is empty. *)
Theorem NewIterator_returns_iff (qs0 : QuadStore) (rt : string) (d : Direction)
    (val : Value) (w : W) :
  (exists it w', NewIterator P E qs0 rt d val w = (Ok it, w')) <->
  (d <> QuadMetadata /\ exists h, val = VNodeHash h) \/
  (d = QuadMetadata /\
   (fst (getFieldMap P E qs0 w) = [] \/ exists m, val = VQuadRef m)).
Proof.
  unfold NewIterator. destruct (Direction_eqb d QuadMetadata) eqn:Hd.
  - apply Direction_eqb_eq in Hd. subst d.
    destruct (getFieldMap P E qs0 w) as [fm w1]. cbn [fst].
    destruct fm as [|e fm].
    + cbn. destruct (NextUID E w1) as [u w3]. split.
      * intros _. right. split; [reflexivity | left; reflexivity].
      * intros _. do 2 eexists. reflexivity.
    + replace (negb (len (e :: fm) =? 0)) with true by reflexivity.
      destruct val as [h|q|m|].
      * split; [intros (it & w' & H); discriminate|].
        intros [[Hne _] | [_ [H | (m & H)]]]; [now elim Hne | discriminate | discriminate].
      * split; [intros (it & w' & H); discriminate|].
        intros [[Hne _] | [_ [H | (m & H)]]]; [now elim Hne | discriminate | discriminate].
      * destruct (MapRange E m w1) as [entries w2].
        destruct (NextUID E w2) as [u w3]. split.
        -- intros _. right. split; [reflexivity|]. right. exists m. reflexivity.
        -- intros _. do 2 eexists. reflexivity.
      * split; [intros (it & w' & H); discriminate|].
        intros [[Hne _] | [_ [H | (m & H)]]]; [now elim Hne | discriminate | discriminate].
  - assert (Hne : d <> QuadMetadata).
    { intros ->. discriminate. }
    destruct val as [h|q|m|].
    + destruct (NextUID E w) as [u w1]. split.
      * intros _. left. split; [exact Hne | exists h; reflexivity].
      * intros _. do 2 eexists. reflexivity.
    + split; [intros (it & w' & H); discriminate|].
      intros [[_ (h & H)] | [Heq _]]; [discriminate | contradiction].
    + split; [intros (it & w' & H); discriminate|].
      intros [[_ (h & H)] | [Heq _]]; [discriminate | contradiction].
    + split; [intros (it & w' & H); discriminate|].
      intros [[_ (h & H)] | [Heq _]]; [discriminate | contradiction].
Qed.

(** Without a malformed range the loop is a plain translation: one filter
    per entry, in the order visited. *)
Lemma metadataFilters_wellformed (fm : list (string * JSON)) (d : Direction)
    (entries : list (string * string)) :
  Forall (fun kv => malformedRange P fm d kv = false) entries ->
  forall acc, metadataFilters P fm d entries acc =
              acc ++ map (entryFilter P fm d) entries.
Proof.
  induction 1 as [|[key value] rest Hhead _ IH]; intros acc.
  - cbn. symmetry. apply app_nil_r.
  - rewrite metadataFilters_cons. unfold malformedRange in Hhead.
    cbn [fst snd] in Hhead. cbn [map]. unfold entryFilter at 1. cbn [fst snd].
    destruct (isTime P fm key d); cbn [andb] in Hhead.
    + rewrite Hhead, IH, <- app_assoc. reflexivity.
    + rewrite IH, <- app_assoc. reflexivity.
Qed.

(** With a schema, a metadata request on a filter map always builds the
    conjunction the loop leaves. *)
Lemma NewIterator_metadata_query (qs0 : QuadStore) (rt : string)
    (m : list (string * string)) (w : W) :
  fst (getFieldMap P E qs0 w) <> [] ->
  exists it w',
    NewIterator P E qs0 rt QuadMetadata (VQuadRef m) w = (Ok it, w') /\
    query it =
      BoolFilter
        (metadataFilters P (fst (getFieldMap P E qs0 w)) QuadMetadata
           (fst (MapRange E m (snd (getFieldMap P E qs0 w)))) []).
Proof.
  unfold NewIterator. cbn [Direction_eqb].
  destruct (getFieldMap P E qs0 w) as [fm w1]. cbn [fst snd]. intros Hfm.
  destruct fm as [|e fm]; [contradiction|].
  replace (negb (len (e :: fm) =? 0)) with true by reflexivity.
  destruct (MapRange E m w1) as [entries w2].
  destruct (NextUID E w2) as [u w3]. do 2 eexists. split; reflexivity.
Qed.

(** X17. A metadata request none of whose visited entries is a malformed range is
    translated entry by entry: the predicate is the conjunction of one
    filter per entry, a range filter for a time-typed key and a pattern
    filter otherwise, in the order visited, and a document matches it
    exactly when it matches every one of them. *)
Theorem NewIterator_metadata_wellformed (qs0 : QuadStore) (rt : string)
    (m : list (string * string)) (w : W) :
  fst (getFieldMap P E qs0 w) <> [] ->
  Forall (fun kv => malformedRange P (fst (getFieldMap P E qs0 w)) QuadMetadata kv = false)
    (fst (MapRange E m (snd (getFieldMap P E qs0 w)))) ->
  exists it w',
    NewIterator P E qs0 rt QuadMetadata (VQuadRef m) w = (Ok it, w') /\
    query it =
      BoolFilter
        (map (entryFilter P (fst (getFieldMap P E qs0 w)) QuadMetadata)
           (fst (MapRange E m (snd (getFieldMap P E qs0 w))))) /\
    forall S doc,
      matches S doc (query it) =
        forallb
          (fun kv =>
             matches S doc (entryFilter P (fst (getFieldMap P E qs0 w)) QuadMetadata kv))
          (fst (MapRange E m (snd (getFieldMap P E qs0 w)))).
Proof.
  intros Hfm Hok.
  destruct (NewIterator_metadata_query qs0 rt m w Hfm) as (it & w' & Hnew & Hq).
  exists it, w'. split; [exact Hnew|].
  rewrite (metadataFilters_wellformed _ _ _ Hok []) in Hq. cbn [app] in Hq.
  split; [exact Hq|]. intros S doc. rewrite Hq. cbn [matches].
  apply forallb_map_compose.
Qed.

(** X18. A metadata request with an empty filter map, on an index that has a
    schema, gets the empty conjunction: a predicate every document
    matches. *)
Theorem NewIterator_metadata_empty_map (qs0 : QuadStore) (rt : string) (w : W) :
  fst (getFieldMap P E qs0 w) <> [] ->
  fst (MapRange E [] (snd (getFieldMap P E qs0 w))) = [] ->
  exists it w',
    NewIterator P E qs0 rt QuadMetadata (VQuadRef []) w = (Ok it, w') /\
    query it = BoolFilter [] /\
    forall S doc, matches S doc (query it) = true.
Proof.
  intros Hfm Hrange.
  destruct (NewIterator_metadata_query qs0 rt [] w Hfm) as (it & w' & Hnew & Hq).
  exists it, w'. split; [exact Hnew|].
  rewrite Hrange in Hq. cbn [metadataFilters] in Hq.
  split; [exact Hq|]. intros S doc. rewrite Hq. reflexivity.
Qed.

(** *** Range values *)

Lemma prefix_delimiter_other (c : ascii) (s : string) :
  Ascii.eqb c "="%char = false -> String.prefix "=>" (String c s) = false.
Proof.
  intros Hc. cbn [String.prefix].
  destruct (ascii_dec "="%char c) as [<-|_]; [|reflexivity].
  rewrite Ascii.eqb_refl in Hc. discriminate.
Qed.

Lemma prefix_delimiter_here (rest : string) :
  String.prefix "=>" (String "="%char (String ">"%char rest)) = true.
Proof.
  cbn [String.prefix].
  destruct (ascii_dec "="%char "="%char) as [_|Hne]; [|now elim Hne].
  destruct (ascii_dec ">"%char ">"%char) as [_|Hne]; [|now elim Hne].
  destruct rest; reflexivity.
Qed.

Lemma append_String_assoc (cur : string) (c : ascii) (s : string) :
  ((cur ++ String c EmptyString) ++ s)%string = (cur ++ String c s)%string.
Proof. induction cur as [|a cur IH]; cbn; [reflexivity | now rewrite IH]. Qed.

Lemma append_empty_r (s : string) : (s ++ EmptyString)%string = s.
Proof. induction s as [|a s IH]; cbn; [reflexivity | now rewrite IH]. Qed.

(** A string without an equals sign is one part. *)
Lemma SplitFrom_noEquals (s : string) :
  noEquals s = true ->
  forall cur, SplitFrom "=>" s O cur = [(cur ++ s)%string].
Proof.
  induction s as [|c s IH]; intros Hs cur.
  - cbn. now rewrite append_empty_r.
  - cbn [noEquals] in Hs. apply andb_true_iff in Hs as [Hc Hs].
    apply negb_true_iff in Hc.
    cbn [SplitFrom]. rewrite (prefix_delimiter_other c s Hc).
    rewrite (IH Hs). now rewrite append_String_assoc.
Qed.

(** The first delimiter after a part without an equals sign ends the part. *)
Lemma SplitFrom_delimiter (a rest : string) :
  noEquals a = true ->
  forall cur,
    SplitFrom "=>" (a ++ "=>" ++ rest)%string O cur =
      (cur ++ a)%string :: SplitFrom "=>" rest O EmptyString.
Proof.
  induction a as [|c a IH]; intros Ha cur.
  - cbn [String.append]. cbn [SplitFrom]. rewrite prefix_delimiter_here.
    cbn [String.length Nat.sub]. now rewrite append_empty_r.
  - cbn [noEquals] in Ha. apply andb_true_iff in Ha as [Hc Ha].
    apply negb_true_iff in Hc.
    cbn [String.append SplitFrom]. rewrite (prefix_delimiter_other c _ Hc).
    rewrite (IH Ha). now rewrite append_String_assoc.
Qed.

(** X19. On a time-typed key a value "from=>to", neither part holding an equals
    sign, becomes the range filter from [from] to [to] on the field, and the
    loop goes on. *)
Theorem metadataFilters_range (fm : list (string * JSON)) (d : Direction)
    (key from to : string) (rest : list (string * string)) (acc : list Query) :
  isTime P fm key d = true ->
  noEquals from = true -> noEquals to = true ->
  metadataFilters P fm d ((key, (from ++ "=>" ++ to)%string) :: rest) acc =
    metadataFilters P fm d rest
      (acc ++ [RangeQuery (Direction_String P d ++ "." ++ key)%string from to]).
Proof.
  intros Ht Hfrom Hto. rewrite metadataFilters_cons, Ht.
  unfold Split. rewrite (SplitFrom_delimiter from to Hfrom EmptyString).
  rewrite (SplitFrom_noEquals to Hto EmptyString). reflexivity.
Qed.

(** X20. On a time-typed key a value without an equals sign has a single part:
    the loop appends the match-nothing term and stops, whatever entries
    follow. *)
Theorem metadataFilters_no_delimiter (fm : list (string * JSON)) (d : Direction)
    (key value : string) (rest : list (string * string)) (acc : list Query) :
  isTime P fm key d = true ->
  noEquals value = true ->
  metadataFilters P fm d ((key, value) :: rest) acc = acc ++ [nullterm].
Proof.
  intros Ht Hv. rewrite metadataFilters_cons, Ht.
  unfold Split. rewrite (SplitFrom_noEquals value Hv EmptyString). reflexivity.
Qed.

End Construction.

Lemma NewIterator_metadata_wellformed_witness :
  exists it w',
    NewIterator testPkg scripted theStore "quads" QuadMetadata
      (VQuadRef [("x", "y.*"); ("created", "2016=>2017")])
      (script (dateMapping, None) [] []) = (Ok it, w') /\
    query it =
      BoolFilter [RegexpQuery "metadata.x" "y.*";
                  RangeQuery "metadata.created" "2016" "2017"].
Proof.
  destruct (NewIterator_metadata_wellformed testPkg Script scripted theStore "quads"
              [("x", "y.*"); ("created", "2016=>2017")]
              (script (dateMapping, None) [] []))
    as (it & w' & Hnew & Hq & _).
  - discriminate.
  - repeat constructor.
  - exists it, w'. split; [exact Hnew | exact Hq].
Defined.

Lemma NewIterator_metadata_empty_map_witness :
  exists it w',
    NewIterator testPkg scripted theStore "quads" QuadMetadata (VQuadRef [])
      (script (dateMapping, None) [] []) = (Ok it, w') /\
    query it = BoolFilter [].
Proof.
  destruct (NewIterator_metadata_empty_map testPkg Script scripted theStore "quads"
              (script (dateMapping, None) [] []))
    as (it & w' & Hnew & Hq & _).
  - discriminate.
  - reflexivity.
  - exists it, w'. split; [exact Hnew | exact Hq].
Defined.

Lemma metadataFilters_range_witness :
  metadataFilters testPkg
    (fst (getFieldMap testPkg scripted theStore (script (dateMapping, None) [] [])))
    QuadMetadata [("created", "2016=>2017")] [] =
  [RangeQuery "metadata.created" "2016" "2017"].
Proof.
  apply (metadataFilters_range testPkg
           (fst (getFieldMap testPkg scripted theStore (script (dateMapping, None) [] [])))
           QuadMetadata "created" "2016" "2017" [] []); reflexivity.
Defined.

Lemma metadataFilters_no_delimiter_witness :
  metadataFilters testPkg
    (fst (getFieldMap testPkg scripted theStore (script (dateMapping, None) [] [])))
    QuadMetadata [("created", "only-one-part"); ("x", "y.*")] [] =
  [nullterm].
Proof.
  apply (metadataFilters_no_delimiter testPkg
           (fst (getFieldMap testPkg scripted theStore (script (dateMapping, None) [] [])))
           QuadMetadata "created" "only-one-part" [("x", "y.*")] []); reflexivity.
Defined.

(** ** Tagging *)

Lemma mapGet_app (a b : list (string * Value)) (k : string) :
  mapGet (a ++ b) k =
    match mapGet a k with
    | Some v => Some v
    | None => mapGet b k
    end.
Proof.
  induction a as [|[k' v'] a IH]; [reflexivity|].
  cbn. destruct (String.eqb k' k); [reflexivity | exact IH].
Qed.

Lemma mapGet_In (l : list (string * Value)) (k : string) (v : Value) :
  mapGet l k = Some v -> In (k, v) l.
Proof.
  induction l as [|[k' v'] l IH]; [discriminate|]. cbn.
  destruct (String.eqb_spec k' k) as [->|Hne].
  - intros H; inversion H. left. reflexivity.
  - intros H. right. apply IH, H.
Qed.

Lemma In_mapGet (l : list (string * Value)) (k : string) (v : Value) :
  NoDup (map fst l) -> In (k, v) l -> mapGet l k = Some v.
Proof.
  induction l as [|[k' v'] l IH]; intros Hnd Hin; [destruct Hin|].
  cbn [map fst] in Hnd. inversion Hnd as [|? ? Hnotin Hnd']; subst.
  cbn. destruct (String.eqb_spec k' k) as [->|Hne].
  - destruct Hin as [Heq | Hin]; [inversion Heq; reflexivity|].
    exfalso. apply Hnotin. apply (in_map fst) in Hin. exact Hin.
  - destruct Hin as [Heq | Hin]; [inversion Heq; contradiction|].
    apply IH; assumption.
Qed.

(** A map holds one value per key, so the order in which it is listed does
    not matter to a lookup. *)
Lemma mapGet_Permutation (l l' : list (string * Value)) (k : string) :
  NoDup (map fst l) -> Permutation l' l -> mapGet l' k = mapGet l k.
Proof.
  intros Hnd Hperm.
  assert (Hnd' : NoDup (map fst l')).
  { apply (Permutation_NoDup (l := map fst l)); [|exact Hnd].
    apply Permutation_map, Permutation_sym, Hperm. }
  destruct (mapGet l k) as [v|] eqn:Hl.
  - apply In_mapGet; [exact Hnd'|].
    apply (Permutation_in _ (Permutation_sym Hperm)), mapGet_In, Hl.
  - destruct (mapGet l' k) as [v'|] eqn:Hl'; [|reflexivity].
    apply mapGet_In in Hl'. apply (Permutation_in _ Hperm) in Hl'.
    apply (In_mapGet l k v' Hnd) in Hl'. congruence.
Qed.

Lemma fold_mapSet_tags (v : Value) (names : list string) :
  forall dst,
    fold_left (fun d tag => mapSet d tag v) names dst =
      rev (map (fun tag => (tag, v)) names) ++ dst.
Proof.
  induction names as [|t names IH]; intros dst; [reflexivity|].
  cbn [fold_left map rev]. rewrite IH, <- app_assoc. reflexivity.
Qed.

Lemma fold_mapSet_fixed (l : list (string * Value)) :
  forall dst,
    fold_left (fun d kv => mapSet d (fst kv) (snd kv)) l dst = rev l ++ dst.
Proof.
  induction l as [|[k v] l IH]; intros dst; [reflexivity|].
  cbn [fold_left rev fst snd]. rewrite IH, <- app_assoc. reflexivity.
Qed.

Lemma mapGet_tags (v : Value) (names : list string) (k : string) :
  mapGet (rev (map (fun tag => (tag, v)) names)) k =
    if existsb (String.eqb k) names then Some v else None.
Proof.
  induction names as [|t names IH]; [reflexivity|].
  cbn [map rev existsb]. rewrite mapGet_app, IH. cbn [mapGet].
  rewrite (String.eqb_sym t k).
  destruct (existsb (String.eqb k) names); destruct (String.eqb k t); reflexivity.
Qed.

(** X21. After [TagResults] the destination maps every fixed tag of the iterator
    to its fixed value, every other tag name of the iterator to the current
    result, and every other key to what it held before: a fixed tag wins
    over a tag name and both overwrite the destination.  The order in which
    the fixed tags are ranged over does not matter. *)
Theorem TagResults_lookup (it : Iterator) (fixedOrder dst : list (string * Value))
    (k : string) :
  NoDup (map fst (fixedTags (tags it))) ->
  Permutation fixedOrder (fixedTags (tags it)) ->
  mapGet (TagResults it fixedOrder dst) k =
    match mapGet (fixedTags (tags it)) k with
    | Some v => Some v
    | None =>
        if existsb (String.eqb k) (tagger_tags (tags it))
        then Some (Result it)
        else mapGet dst k
    end.
Proof.
  intros Hnd Hperm. unfold TagResults.
  rewrite fold_mapSet_fixed, fold_mapSet_tags, !mapGet_app, mapGet_tags.
  rewrite (mapGet_Permutation (fixedTags (tags it)) (rev fixedOrder) k Hnd).
  - destruct (mapGet (fixedTags (tags it)) k); [reflexivity|].
    destruct (existsb (String.eqb k) (tagger_tags (tags it))); reflexivity.
  - apply (Permutation_trans (l' := fixedOrder));
      [apply Permutation_sym, Permutation_rev | exact Hperm].
Qed.

Lemma TagResults_lookup_witness :
  mapGet
    (TagResults
       (set_result
          (set_tags subjectIterator
             {| tagger_tags := ["who"; "id"];
                fixedTags := [("id", VNodeHash "fixed"); ("kind", VNodeHash "quad")] |})
          (VQuadHash "q1"))
       [("kind", VNodeHash "quad"); ("id", VNodeHash "fixed")]
       [("who", VNodeHash "old"); ("other", VNodeHash "kept")])
    "id" = Some (VNodeHash "fixed").
Proof.
  apply (TagResults_lookup
           (set_result
              (set_tags subjectIterator
                 {| tagger_tags := ["who"; "id"];
                    fixedTags := [("id", VNodeHash "fixed"); ("kind", VNodeHash "quad")] |})
              (VQuadHash "q1"))
           [("kind", VNodeHash "quad"); ("id", VNodeHash "fixed")]
           [("who", VNodeHash "old"); ("other", VNodeHash "kept")] "id").
  - cbn. repeat constructor; cbn; intuition discriminate.
  - cbn. apply perm_swap.
Defined.

(** ** Witnesses for two lemmas of the earlier sections *)

Lemma advances_all_false_witness :
  advances testPkg offline 3 subjectIterator tt = [Ok None; Ok None; Ok None].
Proof.
  apply (advances_all_false testPkg unit offline subjectIterator subjectIterator tt tt).
  - reflexivity.
  - intros w0. exact I.
Defined.

Lemma Clone_metadata_same_predicate_witness :
  exists it0 wc' mm w',
    NewIterator testPkg scripted theStore "quads" QuadMetadata
      (VQuadRef [("created", "2016=>2017")])
      (script (dateMapping, None) [] []) = (Ok it0, wc') /\
    Clone testPkg scripted it0 (script (dateMapping, None) [] [(3, None)]) = (Ok mm, w') /\
    query mm = query it0.
Proof.
  do 2 eexists.
  destruct (Clone_metadata_same_predicate testPkg Script scripted theStore "quads"
              [("created", "2016=>2017")] _
              (script (dateMapping, None) [] []) _
              (script (dateMapping, None) [] [(3, None)])
              eq_refl eq_refl eq_refl)
    as (mm & w' & Hclone & Hq).
  exists mm, w'. split; [reflexivity|]. split; [exact Hclone | exact Hq].
Defined.
